(** * NoctisApp real-time layer: connection registry, event router,
      rate limiter, token gate and call signaling.

    Shallow embedding of
      - src/backend/app/routes/websockets.py
      - src/backend/app/routes/calls.py
      - src/backend/app/services/auth.py (AuthService.verify_token)
    Redis is modelled as a key/value store with millisecond expiries, a
    reachability flag and an outbox of published frames; the SQL store of
    calls as a finite map from call id to record. *)

From Stdlib Require Import ZArith Lia.
From stdpp Require Import base gmap list strings pretty.

Open Scope string_scope.
#[local] Set Warnings "-register-all".

(* ------------------------------------------------------------------ *)
(** ** JSON values as produced by [json.loads] and built by the handlers *)

Inductive json :=
  | JNull
  | JBool (b : bool)
  | JNum (z : Z)
  | JStr (s : string)
  | JArr (l : list json)
  | JObj (kv : list (string * json)).

(** [dict.get(k)]: objects produced by [json.loads] have unique keys. *)
Fixpoint dget (kv : list (string * json)) (k : string) : option json :=
  match kv with
  | [] => None
  | (k', v) :: kv' => if String.eqb k k' then Some v else dget kv' k
  end.

(** Python truthiness of a JSON value. *)
Definition py_truthy (j : json) : bool :=
  match j with
  | JNull => false
  | JBool b => b
  | JNum z => negb (Z.eqb z 0)
  | JStr s => negb (String.eqb s "")
  | JArr l => negb (bool_decide (l = []))
  | JObj kv => negb (bool_decide (kv = []))
  end.

Definition squote : string := String (Ascii.ascii_of_nat 39) EmptyString.

Fixpoint join (sep : string) (l : list string) : string :=
  match l with
  | [] => ""
  | [s] => s
  | s :: l' => s +:+ sep +:+ join sep l'
  end.

(** Python [repr] of a JSON value (escapes inside strings not modelled). *)
Fixpoint py_repr (j : json) : string :=
  match j with
  | JNull => "None"
  | JBool true => "True"
  | JBool false => "False"
  | JNum z => pretty z
  | JStr s => squote +:+ s +:+ squote
  | JArr l => "[" +:+ join ", " (map py_repr l) +:+ "]"
  | JObj kv =>
      "{" +:+ join ", " (map (fun '(k, v) => squote +:+ k +:+ squote +:+ ": " +:+ py_repr v) kv)
      +:+ "}"
  end.

(** Python [str(x)]. *)
Definition py_str (j : json) : string :=
  match j with
  | JStr s => s
  | _ => py_repr j
  end.

(** [str(data.get(k) or "")] *)
Definition get_str_or_empty (kv : list (string * json)) (k : string) : string :=
  match dget kv k with
  | Some v => if py_truthy v then py_str v else ""
  | None => ""
  end.

(** [data.get(k)] as a JSON value ([None] is [null]). *)
Definition get_or_null (kv : list (string * json)) (k : string) : json :=
  match dget kv k with Some v => v | None => JNull end.

(* ------------------------------------------------------------------ *)
(** ** Exceptions and the state/exception monad *)

Inductive exc :=
  | ExRuntime (msg : string)          (* RuntimeError *)
  | ExHTTP (code : Z) (detail : string) (* fastapi.HTTPException *)
  | ExRedis                          (* redis-py connection / command error *)
  | ExDisconnect                     (* WebSocketDisconnect *)
  | ExAttr.                          (* AttributeError on a non-dict frame *)

(** An exception the handler does not catch ([KeyError], [TypeError], a
    database driver error): the server answers 500. *)
Definition server_error : exc := ExHTTP 500 "Internal Server Error".

Definition M (W A : Type) : Type := W -> (exc + A) * W.

Definition ret {W A} (a : A) : M W A := fun w => (inr a, w).
Definition bind {W A B} (m : M W A) (k : A -> M W B) : M W B :=
  fun w => match m w with
           | (inl e, w') => (inl e, w')
           | (inr a, w') => k a w'
           end.
Definition raise {W A} (e : exc) : M W A := fun w => (inl e, w).
(** [try: m except e: h e] *)
Definition catch {W A} (m : M W A) (h : exc -> M W A) : M W A :=
  fun w => match m w with
           | (inl e, w') => h e w'
           | r => r
           end.
(** A value or an exception, raised. *)
Definition of_sum {W A} (r : exc + A) : M W A :=
  match r with inl e => raise e | inr a => ret a end.

Definition gets {W A} (f : W -> A) : M W A := fun w => (inr (f w), w).
Definition modify {W} (f : W -> W) : M W unit := fun w => (inr tt, f w).

Notation "x <-- c ;; k" := (bind c (fun x => k))
  (at level 100, c at next level, right associativity).
Notation "c ;;; k" := (bind c (fun _ => k))
  (at level 100, right associativity).

(* ------------------------------------------------------------------ *)
(** ** Redis *)

Inductive rval :=
  | RInt (n : Z)
  | RStr (v : json)           (* a string holding the JSON text of [v] *)
  | RSet (s : gset string).

Record rentry := mkEntry { r_val : rval; r_exp : option Z (* absolute, ms *) }.

Record redis := mkRedis {
  r_store : gmap string rentry;
  r_up : bool;                          (* server reachable *)
  r_now : Z;                            (* clock, ms *)
  r_pub : list (string * string)        (* PUBLISH outbox: channel, payload *)
}.

Definition r_with_store (R : redis) (s : gmap string rentry) : redis :=
  mkRedis s (r_up R) (r_now R) (r_pub R).

(** A key is live unless its expiry lies in the past (Redis: expired iff
    now > when). *)
Definition r_live (R : redis) (k : string) : option rentry :=
  match r_store R !! k with
  | Some e =>
      match r_exp e with
      | Some t => if Z.ltb t (r_now R) then None else Some e
      | None => Some e
      end
  | None => None
  end.

(** Every command fails with a connection error when the server is down. *)
Definition rcall {A} (op : redis -> exc + (A * redis)) : M redis A :=
  fun R => if r_up R then
             match op R with
             | inl e => (inl e, R)
             | inr (a, R') => (inr a, R')
             end
           else (inl ExRedis, R).

(** INCR: a missing key counts from 0; a string holding the text of an
    integer (a counter, or the JSON text of a number) is incremented, its
    expiry kept; any other value is an error. *)
Definition op_incr (k : string) (R : redis) : exc + (Z * redis) :=
  match r_live R k with
  | None => inr (1, r_with_store R (<[k := mkEntry (RInt 1) None]> (r_store R)))
  | Some (mkEntry (RInt n) e) =>
      inr (n + 1, r_with_store R (<[k := mkEntry (RInt (n + 1)) e]> (r_store R)))
  | Some (mkEntry (RStr (JNum n)) e) =>
      inr (n + 1, r_with_store R (<[k := mkEntry (RInt (n + 1)) e]> (r_store R)))
  | Some _ => inl ExRedis
  end%Z.

Definition op_expire (k : string) (secs : Z) (R : redis) : exc + (bool * redis) :=
  match r_live R k with
  | None => inr (false, R)
  | Some e =>
      if Z.leb secs 0 then inr (true, r_with_store R (delete k (r_store R)))
      else inr (true, r_with_store R
                        (<[k := mkEntry (r_val e) (Some (r_now R + 1000 * secs))]> (r_store R)))
  end%Z.

(** TTL in seconds: -2 missing, -1 no expiry, else remaining ms rounded. *)
Definition op_ttl (k : string) (R : redis) : exc + (Z * redis) :=
  match r_live R k with
  | None => inr ((-2)%Z, R)
  | Some (mkEntry _ None) => inr ((-1)%Z, R)
  | Some (mkEntry _ (Some t)) => inr (((Z.max 0 (t - r_now R) + 500) / 1000)%Z, R)
  end.

Definition op_set_ex (k : string) (v : json) (ex : Z) (R : redis) : exc + (unit * redis) :=
  if Z.leb ex 0 then inl ExRedis
  else inr (tt, r_with_store R (<[k := mkEntry (RStr v) (Some (r_now R + 1000 * ex))]> (r_store R)))%Z.

(** GET, the text read back as JSON: a counter reads as the text of its
    number; a set is a WRONGTYPE error. *)
Definition op_get (k : string) (R : redis) : exc + (option json * redis) :=
  match r_live R k with
  | None => inr (None, R)
  | Some (mkEntry (RStr v) _) => inr (Some v, R)
  | Some (mkEntry (RInt n) _) => inr (Some (JNum n), R)
  | Some (mkEntry (RSet _) _) => inl ExRedis
  end.

Definition op_sadd (k m : string) (R : redis) : exc + (unit * redis) :=
  match r_live R k with
  | None => inr (tt, r_with_store R (<[k := mkEntry (RSet {[m]}) None]> (r_store R)))
  | Some (mkEntry (RSet s) e) =>
      inr (tt, r_with_store R (<[k := mkEntry (RSet ({[m]} ∪ s)) e]> (r_store R)))
  | Some _ => inl ExRedis
  end.

Definition op_sismember (k m : string) (R : redis) : exc + (bool * redis) :=
  match r_live R k with
  | None => inr (false, R)
  | Some (mkEntry (RSet s) _) => inr (bool_decide (m ∈ s), R)
  | Some _ => inl ExRedis
  end.

Definition op_publish (ch data : string) (R : redis) : exc + (unit * redis) :=
  inr (tt, mkRedis (r_store R) (r_up R) (r_now R) (r_pub R ++ [(ch, data)])).

(* ------------------------------------------------------------------ *)
(** ** Rate limiter (websockets.rate_limit and calls.rate_limit)

    Both variants share the body; they differ in the exception raised
    ([limited]) and in which exception the [except ...: raise] clause
    re-raises ([own]); any other exception is logged and the action
    proceeds (fail open). *)

Definition rate_limit_gen (limited : Z -> exc) (own : exc -> bool)
    (user_id action_key : string) (limit window_seconds : Z) : M redis unit :=
  let key := "rl:" +:+ user_id +:+ ":" +:+ action_key in
  catch
    (current <-- rcall (op_incr key) ;;
     (if Z.eqb current 1 then rcall (op_expire key window_seconds) ;;; ret tt else ret tt) ;;;
     (if Z.ltb limit current then
        ttl <-- rcall (op_ttl key) ;;
        raise (limited (if Z.ltb 0 ttl then ttl else window_seconds))
      else ret tt))
    (fun e => if own e then raise e else ret tt).

Definition is_runtime (e : exc) : bool :=
  match e with ExRuntime _ => true | _ => false end.
Definition is_http (e : exc) : bool :=
  match e with ExHTTP _ _ => true | _ => false end.

(** websockets.py: [RuntimeError(f"rate_limited:{...}")] *)
Definition ws_limited (r : Z) : exc := ExRuntime ("rate_limited:" +:+ pretty r).
Definition ws_rate_limit := rate_limit_gen ws_limited is_runtime.

(** calls.py: HTTP 429 *)
Definition http_limited (r : Z) : exc :=
  ExHTTP 429 ("Rate limit exceeded. Try again in " +:+ pretty r +:+ " seconds.").
Definition calls_rate_limit := rate_limit_gen http_limited is_http.

(** Running one limiter repeatedly, the clock set to each call's time. *)
Definition r_at (t : Z) (R : redis) : redis :=
  mkRedis (r_store R) (r_up R) t (r_pub R).

Fixpoint rl_run (rl : M redis unit) (ts : list Z) (R : redis)
    : list (exc + unit) * redis :=
  match ts with
  | [] => ([], R)
  | t :: ts' =>
      let '(r, R1) := rl (r_at t R) in
      let '(rs, R2) := rl_run rl ts' R1 in
      (r :: rs, R2)
  end.

Definition rl_key (user_id action_key : string) : string :=
  "rl:" +:+ user_id +:+ ":" +:+ action_key.

(** Remaining lifetime in seconds reported by TTL for a live key with
    expiry [e] at time [now] (-1 when the key has no expiry). *)
Definition ttl_secs (e : option Z) (now : Z) : Z :=
  match e with
  | Some t => ((Z.max 0 (t - now) + 500) / 1000)%Z
  | None => (-1)%Z
  end.

(** Result the limiter gives to the [n]-th call of a window whose expiry is
    [e], made at time [t]. *)
Definition rl_verdict (limited : Z -> exc) (limit w : Z) (e : option Z) (n t : Z) : exc + unit :=
  if Z.ltb limit n then
    inl (limited (let r := ttl_secs e t in if Z.ltb 0 r then r else w))
  else inr tt.

Fixpoint rl_expected (limited : Z -> exc) (limit w : Z) (e : option Z)
    (ts : list Z) (n : Z) : list (exc + unit) :=
  match ts with
  | [] => []
  | t :: ts' => rl_verdict limited limit w e n t :: rl_expected limited limit w e ts' (n + 1)
  end.

(* ------------------------------------------------------------------ *)
(** ** ConnectionManager (websockets.py)

    A WebSocket is a natural number; [dead] is the set of sockets whose
    [send_text] raises. [active_connections] is a map from user id to a
    set of sockets. [json.dumps(message, separators=(",", ":"))] is the
    standard library's encoder, a parameter [dumps] of every definition
    that serializes. *)

Inductive send_event :=
  | SendOk (ws : nat) (data : string)
  | SendFail (ws : nat) (data : string).   (* exception logged, socket dropped *)

(** [connect]: [setdefault(user_id, set()).add(websocket)] *)
Definition connect (user_id : string) (ws : nat)
    (reg : gmap string (gset nat)) : gmap string (gset nat) :=
  <[user_id := {[ws]} ∪ default ∅ (reg !! user_id)]> reg.

(** [disconnect] *)
Definition disconnect (user_id : string) (ws : nat)
    (reg : gmap string (gset nat)) : gmap string (gset nat) :=
  match reg !! user_id with
  | None => reg
  | Some conns =>
      if bool_decide (conns = ∅) then reg
      else if bool_decide (ws ∈ conns) then
        let conns' := conns ∖ {[ws]} in
        if bool_decide (conns' = ∅) then delete user_id reg
        else <[user_id := conns']> reg
      else reg
  end.

(** The loop of [send_to_user] over a snapshot of the user's sockets. *)
Fixpoint send_each (dead : gset nat) (user_id data : string) (l : list nat)
    (reg : gmap string (gset nat)) : gmap string (gset nat) * list send_event :=
  match l with
  | [] => (reg, [])
  | ws :: l' =>
      let '(reg1, ev) :=
        if bool_decide (ws ∈ dead) then (disconnect user_id ws reg, SendFail ws data)
        else (reg, SendOk ws data) in
      let '(reg2, evs) := send_each dead user_id data l' reg1 in
      (reg2, ev :: evs)
  end.

(** [send_to_user]: copy the set, serialize once, try every socket. *)
Definition send_to_user (dumps : json -> string) (dead : gset nat) (user_id : string)
    (message : json) (reg : gmap string (gset nat)) : gmap string (gset nat) * list send_event :=
  let conns := default ∅ (reg !! user_id) in
  if bool_decide (conns = ∅) then (reg, [])
  else
    let data := dumps message in
    send_each dead user_id data (elements conns) reg.

(** Entry of a user holding the socket set [T]: absent when [T] is empty. *)
Definition set_entry (user_id : string) (T : gset nat)
    (reg : gmap string (gset nat)) : gmap string (gset nat) :=
  if bool_decide (T = ∅) then delete user_id reg else <[user_id := T]> reg.

(** No user maps to an empty socket set. *)
Definition reg_wf (reg : gmap string (gset nat)) : Prop :=
  forall u S, reg !! u = Some S -> S ≠ ∅.

Inductive reg_op :=
  | OpConnect (u : string) (ws : nat)
  | OpDisconnect (u : string) (ws : nat)
  | OpSend (u : string) (msg : json).

Definition run_reg_op (dumps : json -> string) (dead : gset nat) (o : reg_op)
    (reg : gmap string (gset nat)) : gmap string (gset nat) :=
  match o with
  | OpConnect u ws => connect u ws reg
  | OpDisconnect u ws => disconnect u ws reg
  | OpSend u msg => fst (send_to_user dumps dead u msg reg)
  end.

Definition run_reg_ops (dumps : json -> string) (dead : gset nat) (ops : list reg_op)
    (reg : gmap string (gset nat)) : gmap string (gset nat) :=
  fold_left (fun r o => run_reg_op dumps dead o r) ops reg.

(* ------------------------------------------------------------------ *)
(** ** Per-process WebSocket state *)

Record wsworld := mkWs {
  ws_redis : redis;
  ws_reg : gmap string (gset nat);        (* manager.active_connections *)
  ws_dead : gset nat;                     (* sockets whose send fails *)
  ws_sent : list send_event;              (* send_text attempts, in order *)
  ws_accepted : list nat;                 (* websocket.accept() *)
  ws_closed : list (nat * Z);             (* websocket.close(code=...) *)
  ws_subs : list (string * list string);  (* pubsub.psubscribe of the patterns *)
  ws_client : bool                        (* the module's [_redis_client] is assigned *)
}.

Definition set_ws_redis (R : redis) (w : wsworld) : wsworld :=
  mkWs R (ws_reg w) (ws_dead w) (ws_sent w) (ws_accepted w) (ws_closed w) (ws_subs w)
       (ws_client w).

(** Run a Redis command sequence against the shared client. *)
Definition on_redis {A} (m : M redis A) : M wsworld A :=
  fun w => let '(r, R') := m (ws_redis w) in (r, set_ws_redis R' w).

Definition mgr_send_to_user (dumps : json -> string) (user_id : string) (message : json)
    : M wsworld unit :=
  fun w =>
    let '(reg', evs) := send_to_user dumps (ws_dead w) user_id message (ws_reg w) in
    (inr tt, mkWs (ws_redis w) reg' (ws_dead w) (ws_sent w ++ evs)
                  (ws_accepted w) (ws_closed w) (ws_subs w) (ws_client w)).

Definition mgr_connect (user_id : string) (ws : nat) : M wsworld unit :=
  modify (fun w => mkWs (ws_redis w) (connect user_id ws (ws_reg w)) (ws_dead w) (ws_sent w)
                        (ws_accepted w ++ [ws]) (ws_closed w) (ws_subs w) (ws_client w)).

Definition mgr_disconnect (user_id : string) (ws : nat) : M wsworld unit :=
  modify (fun w => mkWs (ws_redis w) (disconnect user_id ws (ws_reg w)) (ws_dead w) (ws_sent w)
                        (ws_accepted w) (ws_closed w) (ws_subs w) (ws_client w)).

Definition ws_close (ws : nat) (code : Z) : M wsworld unit :=
  modify (fun w => mkWs (ws_redis w) (ws_reg w) (ws_dead w) (ws_sent w)
                        (ws_accepted w) (ws_closed w ++ [(ws, code)]) (ws_subs w) (ws_client w)).

Definition set_clock (t : Z) : M wsworld unit :=
  modify (fun w => set_ws_redis (r_at t (ws_redis w)) w).

(** [try: await redis.publish(ch, data) except Exception: pass] *)
Definition publish_best_effort (ch data : string) : M wsworld unit :=
  catch (on_redis (rcall (op_publish ch data))) (fun _ => ret tt).

(** [_subscribe_user_channels] patterns. *)
Definition subscribe_patterns (user_id : string) : list string :=
  [ "ws:messages:" +:+ user_id;
    "ws:messages:react:" +:+ user_id;
    "ws:messages:read:" +:+ user_id;
    "ws:notify:" +:+ user_id;
    "ws:*:" +:+ user_id ].

Definition subscribe_user_channels (user_id : string) : M wsworld unit :=
  on_redis (rcall (fun R => inr (tt, R))) ;;;
  modify (fun w => mkWs (ws_redis w) (ws_reg w) (ws_dead w) (ws_sent w)
                        (ws_accepted w) (ws_closed w)
                        (ws_subs w ++ [(user_id, subscribe_patterns user_id)]) (ws_client w)).

(** Redis glob matching of PSUBSCRIBE patterns ([stringmatchlen]) for
    [*] and [?]; character classes and backslash escapes are not modelled. *)
Fixpoint glob (p s : list Ascii.ascii) : bool :=
  match p with
  | [] => match s with [] => true | _ => false end
  | c :: p' =>
      if Ascii.eqb c (Ascii.ascii_of_nat 42) then
        (fix star (s : list Ascii.ascii) : bool :=
           glob p' s || match s with [] => false | _ :: s' => star s' end) s
      else
        match s with
        | [] => false
        | d :: s' => (Ascii.eqb c (Ascii.ascii_of_nat 63) || Ascii.eqb c d) && glob p' s'
        end
  end.

Definition pattern_matches (pattern channel : string) : bool :=
  glob (String.list_ascii_of_string pattern) (String.list_ascii_of_string channel).

(* ------------------------------------------------------------------ *)
(** ** _handle_client_event *)

Definition kind_is (kv : list (string * json)) (k : string) : bool :=
  match dget kv "type" with
  | Some (JStr s) => String.eqb s k
  | _ => false
  end.

(** [bool(data.get(k, False))] *)
Definition get_bool (kv : list (string * json)) (k : string) : bool :=
  match dget kv k with Some v => py_truthy v | None => false end.

(** [data.get(k) or []] *)
Definition get_list_or_empty (kv : list (string * json)) (k : string) : json :=
  match dget kv k with
  | Some v => if py_truthy v then v else JArr []
  | None => JArr []
  end.

Definition handle_client_event (dumps : json -> string) (user_id : string) (data : json)
    : M wsworld unit :=
  match data with
  | JObj kv =>
    if kind_is kv "ping" then
      on_redis (ws_rate_limit user_id "ws:ping" 30 30) ;;;
      mgr_send_to_user dumps user_id (JObj [("type", JStr "pong")])
    else if kind_is kv "typing" then
      on_redis (ws_rate_limit user_id "ws:typing" 120 60) ;;;
      let receiver_id := get_str_or_empty kv "receiver_id" in
      if String.eqb receiver_id "" then ret tt
      else mgr_send_to_user dumps receiver_id
             (JObj [("type", JStr "typing"); ("sender_id", JStr user_id);
                    ("is_typing", JBool (get_bool kv "is_typing"))])
    else if kind_is kv "read_receipt" then
      on_redis (ws_rate_limit user_id "ws:read" 240 60) ;;;
      let receiver_id := get_str_or_empty kv "receiver_id" in
      let message_ids := get_list_or_empty kv "message_ids" in
      let event := JObj [("type", JStr "messages_read"); ("from", JStr user_id);
                         ("message_ids", message_ids); ("read_at", get_or_null kv "read_at")] in
      mgr_send_to_user dumps receiver_id event ;;;
      publish_best_effort ("ws:messages:read:" +:+ receiver_id) (dumps event)
    else if kind_is kv "signal" then
      on_redis (ws_rate_limit user_id "ws:signal" 240 60) ;;;
      let to := get_str_or_empty kv "to" in
      if String.eqb to "" then ret tt
      else
        let signal := JObj [("type", JStr "signal"); ("from", JStr user_id);
                            ("call_id", get_or_null kv "call_id");
                            ("signal_type", get_or_null kv "signal_type");
                            ("payload", get_or_null kv "payload")] in
        mgr_send_to_user dumps to signal ;;;
        publish_best_effort ("ws:call:" +:+ to) (dumps signal)
    else if kind_is kv "party" then
      on_redis (ws_rate_limit user_id "ws:party" 240 60) ;;;
      let room_id := get_str_or_empty kv "room_id" in
      let event := JObj [("type", JStr "party"); ("from", JStr user_id);
                         ("room_id", JStr room_id); ("action", get_or_null kv "action");
                         ("timestamp", get_or_null kv "timestamp");
                         ("position", get_or_null kv "position");
                         ("provider", get_or_null kv "provider");
                         ("track_id", get_or_null kv "track_id")] in
      publish_best_effort ("ws:party:" +:+ room_id) (dumps event)
    else if kind_is kv "message" then
      on_redis (ws_rate_limit user_id "ws:message_meta" 240 60) ;;;
      let receiver_id := get_str_or_empty kv "receiver_id" in
      let notify := JObj [("type", JStr "new_message"); ("from", JStr user_id);
                          ("message_id", get_or_null kv "message_id");
                          ("client_id", get_or_null kv "client_id");
                          ("delivered_at", get_or_null kv "delivered_at")] in
      mgr_send_to_user dumps receiver_id notify ;;;
      publish_best_effort ("ws:messages:" +:+ receiver_id) (dumps notify)
    else
      mgr_send_to_user dumps user_id
        (JObj [("type", JStr "echo"); ("payload", JObj [("unknown", data)])])
  | _ => raise ExAttr   (* data.get on a non-dict JSON value *)
  end.

(* ------------------------------------------------------------------ *)
(** ** Token verification (services/auth.py) and socket admission

    [jwt_decode] is python-jose's [jwt.decode] with the configured key and
    algorithm: [Some payload] when signature and expiry check out, [None]
    when it raises [JWTError]. *)

Definition verify_token (jwt_decode : string -> option (list (string * json)))
    (token token_type : string) : option (list (string * json)) :=
  match jwt_decode token with
  | None => None
  | Some payload =>
      match dget payload "type" with
      | Some (JStr t) => if String.eqb t token_type then Some payload else None
      | _ => None
      end
  end.

(** How redis-py encodes a command argument; other types raise DataError. *)
Definition redis_encode (v : json) : option string :=
  match v with
  | JStr s => Some s
  | JNum z => Some (pretty z)
  | _ => None
  end.

(** [get_redis] ([REDIS_URL] is configured). The first call assigns the
    module's client [_redis_client] and then pings the server, raising
    [RuntimeError("Redis not available")] when Redis cannot be reached; the
    client stays assigned, and every later call returns it without a ping. *)
Definition with_client (w : wsworld) : wsworld :=
  mkWs (ws_redis w) (ws_reg w) (ws_dead w) (ws_sent w) (ws_accepted w) (ws_closed w)
       (ws_subs w) true.

Definition get_redis : M wsworld unit :=
  fun w =>
    if ws_client w then (inr tt, w)
    else if r_up (ws_redis w) then (inr tt, with_client w)
    else (inl (ExRuntime "Redis not available"), with_client w).

Definition validate_token_and_blacklist (jwt_decode : string -> option (list (string * json)))
    (token : string) : M wsworld (list (string * json)) :=
  match verify_token jwt_decode token "access" with
  | None => raise (ExRuntime "invalid_token")
  | Some payload =>
      let jti := get_or_null payload "jti" in
      if py_truthy jti then
        catch (blacklisted <-- (match redis_encode jti with
                                | Some a => on_redis (rcall (op_sismember "jwt:blacklist" a))
                                | None => raise ExRedis
                                end) ;;
               if blacklisted then raise (ExRuntime "token_blacklisted") else ret tt)
              (fun _ => raise (ExRuntime "blacklist_check_failed")) ;;;
        ret payload
      else ret payload
  end.

(** [json.loads(incoming)], falling back to the [unknown] wrapper. *)
Definition parse_frame (loads : string -> option json) (incoming : string) : json :=
  match loads incoming with
  | Some d => d
  | None => JObj [("type", JStr "unknown"); ("raw", JStr incoming)]
  end.

(** The receive loop; each frame carries its arrival time (ms). When no
    frame is left the peer has gone: [receive_text] raises
    [WebSocketDisconnect]. *)
Fixpoint recv_loop (dumps : json -> string) (loads : string -> option json)
    (user_id : string) (frames : list (Z * string)) : M wsworld unit :=
  on_redis (ws_rate_limit user_id "ws:recv" 300 60) ;;;
  match frames with
  | [] => raise ExDisconnect
  | (t, incoming) :: rest =>
      set_clock t ;;;
      handle_client_event dumps user_id (parse_frame loads incoming) ;;;
      recv_loop dumps loads user_id rest
  end.

(** [websocket_endpoint]. The paired pub/sub forwarder task is not part of
    the model: it only feeds [send_to_user] with frames published by other
    connections. *)
Definition websocket_endpoint (dumps : json -> string) (loads : string -> option json)
    (jwt_decode : string -> option (list (string * json)))
    (token : string) (ws : nat) (frames : list (Z * string)) : M wsworld unit :=
  auth <-- catch (get_redis ;;;
                  payload <-- validate_token_and_blacklist jwt_decode token ;;
                  ret (Some payload))
                 (fun _ => ws_close ws 1008 ;;; ret None) ;;
  match auth with
  | None => ret tt
  | Some payload =>
      let user_id := get_str_or_empty payload "sub" in
      if String.eqb user_id "" then ws_close ws 1008
      else
        mgr_connect user_id ws ;;;
        subscribed <-- catch (subscribe_user_channels user_id ;;; ret true)
                             (fun _ => ws_close ws 1011 ;;; mgr_disconnect user_id ws ;;; ret false) ;;
        if subscribed then
          catch (recv_loop dumps loads user_id frames) (fun _ => ret tt) ;;;
          mgr_disconnect user_id ws
        else ret tt
  end.


(* ------------------------------------------------------------------ *)
(** ** Concrete inputs used by the examples below *)

Definition dq : string := String (Ascii.ascii_of_nat 34) EmptyString.

(** The frame text [{"type":"ping"}]. *)
Definition ping_text : string :=
  "{" +:+ dq +:+ "type" +:+ dq +:+ ":" +:+ dq +:+ "ping" +:+ dq +:+ "}".

(** [json.loads] on the frames used below ([hello] is not JSON). *)
Definition loads_demo (s : string) : option json :=
  if String.eqb s ping_text then Some (JObj [("type", JStr "ping")]) else None.

(** An encoder standing for [json.dumps] in the examples (Python repr);
    no result below depends on the encoding. *)
Definition dumps_demo (j : json) : string := py_repr j.

(** [jwt.decode]: one valid access token for user [u]. *)
Definition jwt_demo (token : string) : option (list (string * json)) :=
  if String.eqb token "tok-u" then Some [("type", JStr "access"); ("sub", JStr "u")] else None.

Definition ping_frames (n : nat) : list (Z * string) :=
  map (fun i => (Z.of_nat i, ping_text)) (seq 0 n).

Definition world0 : wsworld := mkWs (mkRedis ∅ true 0 []) ∅ ∅ [] [] [] [] false.

(** Ids without the characters Redis gives a meaning in glob patterns
    ([*], [?], [[] and backslash). *)
Definition no_glob_meta (s : string) : bool :=
  forallb (fun c => negb (existsb (Ascii.eqb c) (map Ascii.ascii_of_nat [42; 63; 91; 92])))
          (String.list_ascii_of_string s).

(** [jwt.decode] for a validly signed refresh token of user [u]. *)
Definition jwt_refresh (token : string) : option (list (string * json)) :=
  if String.eqb token "tok-r" then Some [("type", JStr "refresh"); ("sub", JStr "u")] else None.

(** [jwt.decode] for access tokens carrying a [jti]: [tok-e] has an empty
    one, [tok-j] the identifier [j1]. *)
Definition jwt_jti (token : string) : option (list (string * json)) :=
  if String.eqb token "tok-e" then
    Some [("type", JStr "access"); ("sub", JStr "u"); ("jti", JStr "")]
  else if String.eqb token "tok-j" then
    Some [("type", JStr "access"); ("sub", JStr "u"); ("jti", JStr "j1")]
  else None.

(** A process whose revocation set [jwt:blacklist] holds [""] and [j1]. *)
Definition world_bl : wsworld :=
  mkWs (mkRedis {[ "jwt:blacklist" := mkEntry (RSet {[""; "j1"]}) None ]} true 0 [])
       ∅ ∅ [] [] [] [] false.

(* ------------------------------------------------------------------ *)
(** ** Calls (routes/calls.py)

    A row of the [calls] table. Its [DateTime] columns have no time zone:
    they hold instants, in milliseconds on the server clock (taken to be the
    Redis clock [r_now]), and read back as naive datetimes. [duration] is
    the nullable integer column whose default is 0. The database driver is
    asyncpg, the one the configuration asks for. The Redis client is already
    connected ([get_redis] returns the cached client without a ping), and
    [actor] is [str(current_user.id)]. *)
Record call_rec := mkCall {
  c_caller : string;
  c_receiver : string;
  c_type : string;
  c_status : string;
  c_started : Z;
  c_answered : option Z;
  c_ended : option Z;
  c_duration : option Z
}.

Record cworld := mkCW { cw_redis : redis; cw_db : gmap string call_rec }.

Definition c_on_redis {A} (m : M redis A) : M cworld A :=
  fun w => let '(r, R') := m (cw_redis w) in (r, mkCW R' (cw_db w)).

(** [datetime.utcnow()], the default of [started_at] (a naive value). *)
Definition c_now : M cworld Z := gets (fun w => r_now (cw_redis w)).

(** A Python [datetime]: naive, or aware ([tzinfo=timezone.utc]). *)
Inductive pydt := Naive (ms : Z) | Aware (ms : Z).

(** [datetime.now(timezone.utc)] *)
Definition c_now_utc : M cworld pydt := gets (fun w => Aware (r_now (cw_redis w))).

(** [a - b] on datetimes, in ms: a [TypeError] when exactly one of them is
    aware. *)
Definition dt_sub (a b : pydt) : exc + Z :=
  match a, b with
  | Naive x, Naive y => inr (x - y)%Z
  | Aware x, Aware y => inr (x - y)%Z
  | _, _ => inl server_error
  end.

(** asyncpg encoding a datetime for a [DateTime] column without time zone
    when [db.commit()] flushes it: its timestamp codec subtracts a naive
    epoch, so an aware value raises [DataError]. *)
Definition bind_timestamp (d : pydt) : exc + Z :=
  match d with
  | Naive t => inr t
  | Aware _ => inl server_error
  end.

(** [select(Call).where(Call.id == call_uuid)] then [scalar_one_or_none()] *)
Definition db_get (id : string) : M cworld (option call_rec) := gets (fun w => cw_db w !! id).

(** The row as changed in the session, then [await db.commit()]. *)
Definition db_commit (id : string) (c : call_rec) : M cworld unit :=
  modify (fun w => mkCW (cw_redis w) (<[id := c]> (cw_db w))).

(** [datetime.isoformat()]: a text for the instant (its format plays no
    part below). *)
Definition isoformat (t : Z) : string := pretty t.

Definition opt_iso (o : option Z) : json :=
  match o with Some t => JStr (isoformat t) | None => JNull end.

(** [d.isoformat()]: an aware value carries its offset. *)
Definition dt_isoformat (d : pydt) : string :=
  match d with Naive t => isoformat t | Aware t => isoformat t +:+ "+00:00" end.

Definition opt_dt_iso (o : option pydt) : json :=
  match o with Some d => JStr (dt_isoformat d) | None => JNull end.

Definition opt_num (o : option Z) : json :=
  match o with Some d => JNum d | None => JNull end.

(** [d[k] = v] on a dict kept in insertion order, and [d.update(upd)]. *)
Fixpoint dset (kv : list (string * json)) (k : string) (v : json) : list (string * json) :=
  match kv with
  | [] => [(k, v)]
  | (k', v') :: kv' => if String.eqb k k' then (k, v) :: kv' else (k', v') :: dset kv' k v
  end.

Definition dupdate (kv upd : list (string * json)) : list (string * json) :=
  fold_left (fun acc '(k, v) => dset acc k v) upd kv.

Definition call_key (call_id : string) : string := "call:" +:+ call_id.

(** [_write_call_state]: [redis.set(f"call:{call_id}", json.dumps(data), ex=ttl)],
    no exception handling. *)
Definition write_call_state (call_id : string) (data : json) (ttl : Z) : M cworld unit :=
  c_on_redis (rcall (op_set_ex (call_key call_id) data ttl)).

(** [_read_call_state]: the stored text is the JSON of a value, non-empty,
    so [json.loads] succeeds on it; no exception handling around the GET. *)
Definition read_call_state (call_id : string) : M cworld (option json) :=
  c_on_redis (rcall (op_get (call_key call_id))).

(** [(await _read_call_state(redis, call_id)) or {}], whose value then
    receives [.update(...)] (an [AttributeError] unless it is a dict). *)
Definition state_or_empty (o : option json) : M cworld (list (string * json)) :=
  match o with
  | Some v =>
      if py_truthy v then match v with JObj kv => ret kv | _ => raise ExAttr end
      else ret []
  | None => ret []
  end.

(** The three statements refreshing the snapshot in [answer_call] and
    [end_call]: read (or [{}]), [state.update(upd)], write with [ttl]. *)
Definition refresh_call_state (call_id : string) (upd : list (string * json)) (ttl : Z)
    : M cworld unit :=
  raw <-- read_call_state call_id ;;
  state <-- state_or_empty raw ;;
  write_call_state call_id (JObj (dupdate state upd)) ttl.

(** [initiate_call]; [new_id] is the [uuid4] the row receives. *)
Definition initiate_call (new_id actor receiver_id call_type : string)
    : M cworld (string * string * string) :=
  c_on_redis (calls_rate_limit actor "calls:initiate" 10 30) ;;;
  now <-- c_now ;;
  let call := mkCall actor receiver_id call_type "initiated" now None None (Some 0%Z) in
  db_commit new_id call ;;;
  let state := JObj [("call_id", JStr new_id); ("status", JStr "initiated");
                     ("caller_id", JStr actor); ("receiver_id", JStr receiver_id);
                     ("call_type", JStr call_type); ("started_at", JStr (isoformat now));
                     ("answered_at", opt_iso (c_answered call));
                     ("ended_at", opt_iso (c_ended call));
                     ("duration", opt_num (c_duration call));
                     ("channel", JStr ("ws:call:" +:+ new_id)); ("meta", JObj [])] in
  write_call_state new_id state 3600 ;;;
  c_on_redis (rcall (op_sadd ("user:" +:+ actor +:+ ":calls") new_id)) ;;;
  c_on_redis (rcall (op_sadd ("user:" +:+ receiver_id +:+ ":calls") new_id)) ;;;
  c_on_redis (rcall (op_expire ("user:" +:+ actor +:+ ":calls") 3600)) ;;;
  c_on_redis (rcall (op_expire ("user:" +:+ receiver_id +:+ ":calls") 3600)) ;;;
  ret (new_id, "initiated", isoformat now).

(** The row after [call.status = "answered"; call.answered_at = now], as
    committed. *)
Definition call_answered (c : call_rec) (now : Z) : call_rec :=
  mkCall (c_caller c) (c_receiver c) (c_type c) "answered" (c_started c)
         (Some now) (c_ended c) (c_duration c).

(** [answer_call]; [uuid_parse] is [uuid.UUID] ([None] when it raises),
    giving the key of the row. Returns [SimpleMessageResponse]. *)
Definition answer_call (uuid_parse : string -> option string) (actor call_id : string)
    : M cworld (string * option Z) :=
  c_on_redis (calls_rate_limit actor "calls:answer" 30 60) ;;;
  match uuid_parse call_id with
  | None => raise (ExHTTP 422 "Invalid call_id")
  | Some cid =>
      oc <-- db_get cid ;;
      match oc with
      | None => raise (ExHTTP 404 "Call not found")
      | Some call =>
          if negb (String.eqb (c_receiver call) actor) then
            raise (ExHTTP 403 "Only the receiver can answer the call")
          else if String.eqb (c_status call) "ended" then
            raise (ExHTTP 409 "Call already ended")
          else
            now <-- c_now_utc ;;
            answered_at <-- of_sum (bind_timestamp now) ;;
            db_commit cid (call_answered call answered_at) ;;;
            refresh_call_state call_id
              [("status", JStr "answered"); ("answered_at", JStr (dt_isoformat now))] 1800 ;;;
            ret ("Call answered", None)
      end
  end.

(** [end_call]. The branch [if call.status != "ended"] gives the session's
    [ended_at] and [duration]; its commit writes the ended row. *)
Definition end_call (uuid_parse : string -> option string) (actor call_id : string)
    : M cworld (string * option Z) :=
  c_on_redis (calls_rate_limit actor "calls:end" 30 60) ;;;
  match uuid_parse call_id with
  | None => raise (ExHTTP 422 "Invalid call_id")
  | Some cid =>
      oc <-- db_get cid ;;
      match oc with
      | None => raise (ExHTTP 404 "Call not found")
      | Some call =>
          if negb (String.eqb actor (c_caller call) || String.eqb actor (c_receiver call)) then
            raise (ExHTTP 403 "Not authorized to end this call")
          else
            upd <-- (if negb (String.eqb (c_status call) "ended") then
                       now <-- c_now_utc ;;
                       duration <-- (match c_answered call with
                                     | Some a =>
                                         d <-- of_sum (dt_sub now (Naive a)) ;;
                                         ret (Some (Z.quot d 1000))
                                     | None => ret (c_duration call)
                                     end) ;;
                       ended_at <-- of_sum (bind_timestamp now) ;;
                       db_commit cid (mkCall (c_caller call) (c_receiver call) (c_type call) "ended"
                                             (c_started call) (c_answered call) (Some ended_at)
                                             duration) ;;;
                       ret (Some now, duration)
                     else ret (option_map Naive (c_ended call), c_duration call)) ;;
            let '(ended_at, duration) := upd in
            refresh_call_state call_id
              [("status", JStr "ended"); ("ended_at", opt_dt_iso ended_at);
               ("duration", opt_num duration)] 300 ;;;
            ret ("Call ended", duration)
      end
  end.

(** Room left in a limiter window: the counter at [key] is missing, or
    holds [n] with [1 <= n < limit]. *)
Definition limiter_room (R : redis) (key : string) (limit : Z) : bool :=
  match r_live R key with
  | None => true
  | Some (mkEntry (RInt n) _) => Z.leb 1 n && Z.ltb n limit
  | Some _ => false
  end.

(** The cached snapshot is missing, or a dict (or a falsy value). *)
Definition cache_ok (R : redis) (call_id : string) : bool :=
  match r_live R (call_key call_id) with
  | None => true
  | Some (mkEntry (RStr (JObj _)) _) => true
  | Some (mkEntry (RStr v) _) => negb (py_truthy v)
  | Some (mkEntry (RInt n) _) => negb (py_truthy (JNum n))
  | Some (mkEntry (RSet _) _) => false
  end.

(** Concrete rows, caller [a] and receiver [b]: [c0] just initiated, [c1]
    ended, [c2] answered at t = 1000. *)
Definition call_c0 : call_rec := mkCall "a" "b" "voice" "initiated" 0 None None (Some 0%Z).
Definition call_c1 : call_rec := mkCall "a" "b" "voice" "ended" 0 None (Some 5000%Z) (Some 0%Z).
Definition call_c2 : call_rec := mkCall "a" "b" "voice" "answered" 0 (Some 1000%Z) None (Some 0%Z).

Definition cworld_at (up : bool) (now : Z) : cworld :=
  mkCW (mkRedis ∅ up now []) {[ "c0" := call_c0; "c1" := call_c1; "c2" := call_c2 ]}.

(* ------------------------------------------------------------------ *)
(** ** The pub/sub forwarder (websockets._pubsub_forwarder)

    A message yielded by [pubsub.listen()] is [None] or a dict with the
    keys [type], [pattern], [channel] and [data]. The task runs until it is
    cancelled; the list holds the messages it receives before that. *)

Definition psmsg : Type := option (list (string * json)).

(** [msg.get("type") in ("pmessage", "message")] *)
Definition is_message_type (kv : list (string * json)) : bool :=
  match dget kv "type" with
  | Some (JStr t) => String.eqb t "pmessage" || String.eqb t "message"
  | _ => false
  end.

(** [json.loads(raw) if isinstance(raw, str) else raw], falling back to
    [{"type": "event", "data": raw}] when the text is not JSON. *)
Definition forward_payload (loads : string -> option json) (raw : json) : json :=
  match raw with
  | JStr s =>
      match loads s with
      | Some v => v
      | None => JObj [("type", JStr "event"); ("data", raw)]
      end
  | _ => raw
  end.

Fixpoint pubsub_forwarder (dumps : json -> string) (loads : string -> option json)
    (user_id : string) (msgs : list psmsg) : M wsworld unit :=
  match msgs with
  | [] => ret tt
  | None :: rest => pubsub_forwarder dumps loads user_id rest
  | Some kv :: rest =>
      if is_message_type kv then
        mgr_send_to_user dumps user_id (forward_payload loads (get_or_null kv "data")) ;;;
        pubsub_forwarder dumps loads user_id rest
      else pubsub_forwarder dumps loads user_id rest
  end.

(** What Redis delivers to a client subscribed with [psubscribe] with the patterns [pats]
    for the frames [pubs] published meanwhile: one [pmessage] per
    published frame and per pattern matching its channel. *)
Definition pubsub_deliveries (pats : list string) (pubs : list (string * string)) : list psmsg :=
  flat_map (fun '(ch, d) =>
              map (fun p => Some [("type", JStr "pmessage"); ("pattern", JStr p);
                                  ("channel", JStr ch); ("data", JStr d)])
                  (List.filter (fun p => pattern_matches p ch) pats))
           pubs.

(** The forwarders of [user_id]'s connections: [websocket_endpoint]
    starts one [_pubsub_forwarder] per admitted socket, each on its own
    [psubscribe] to the patterns of [user_id], so every frame published
    meanwhile reaches each of them. They are run here one after the other;
    each sends to every socket of [user_id], so the frames a socket
    receives do not depend on the interleaving. *)
Fixpoint run_forwarders (dumps : json -> string) (loads : string -> option json)
    (user_id : string) (n : nat) (msgs : list psmsg) : M wsworld unit :=
  match n with
  | O => ret tt
  | S n' => pubsub_forwarder dumps loads user_id msgs ;;; run_forwarders dumps loads user_id n' msgs
  end.

(** A frame sent to the socket [ws], delivered or not. *)
Definition sent_to (ws : nat) (e : send_event) : bool :=
  match e with SendOk w _ | SendFail w _ => Nat.eqb w ws end.

(* ------------------------------------------------------------------ *)
(** ** Token issuance (services/auth.py)

    [jwt_encode] is [jwt.encode] with the configured key and algorithm.
    [exp] is carried as a Unix time in seconds (python-jose turns the
    [datetime] into one); [now_s] is [datetime.utcnow()]. *)

Definition create_access_token (jwt_encode : list (string * json) -> string)
    (now_s access_token_expire_minutes : Z) (data : list (string * json)) : string :=
  jwt_encode (dupdate data [("exp", JNum (now_s + 60 * access_token_expire_minutes));
                            ("type", JStr "access")]).

Definition create_refresh_token (jwt_encode : list (string * json) -> string)
    (now_s refresh_token_expire_days : Z) (data : list (string * json)) : string :=
  jwt_encode (dupdate data [("exp", JNum (now_s + 86400 * refresh_token_expire_days));
                            ("type", JStr "refresh")]).

(** [generate_otp]: [randbelow i] is the value of the [i]-th call of
    [secrets.randbelow(10)]. *)
Definition generate_otp (randbelow : nat -> Z) (length : Z) : string :=
  join "" (map (fun i => pretty (randbelow i)) (seq 0 (Z.to_nat length))).

(* ------------------------------------------------------------------ *)
(** ** Call status (calls.get_call_status) and the router of calls.py *)

(** [state.get(k, d)] *)
Definition get_default (kv : list (string * json)) (k : string) (d : json) : json :=
  match dget kv k with Some v => v | None => d end.

(** [uid == v] for a string [uid] *)
Definition json_is_str (j : json) (s : string) : bool :=
  match j with JStr t => String.eqb t s | _ => false end.

(** The dict rebuilt from the row [c] whose key is [cid]. *)
Definition call_state_of_row (cid : string) (c : call_rec) : list (string * json) :=
  [("call_id", JStr cid); ("status", JStr (c_status c));
   ("caller_id", JStr (c_caller c)); ("receiver_id", JStr (c_receiver c));
   ("call_type", JStr (c_type c)); ("started_at", JStr (isoformat (c_started c)));
   ("answered_at", opt_iso (c_answered c)); ("ended_at", opt_iso (c_ended c));
   ("duration", opt_num (c_duration c))].

(** The arguments of [CallStatusResponse(...)] (pydantic's validation of
    their types is not modelled). *)
Record status_resp := mkStatus {
  st_id : json; st_type : json; st_status : json; st_duration : json;
  st_started : json; st_answered : json; st_ended : json;
  st_caller : json; st_receiver : json
}.

(** The part of [get_call_status] after the state is known: the
    authorization check on [state["caller_id"]] and [state["receiver_id"]],
    then the arguments of [CallStatusResponse], in the order Python
    evaluates them ([.get] never raises). A missing key is a [KeyError]. *)
Definition status_response (actor : string) (state : list (string * json))
    : exc + status_resp :=
  match dget state "caller_id", dget state "receiver_id" with
  | Some caller, Some receiver =>
      if negb (json_is_str caller actor || json_is_str receiver actor) then
        inl (ExHTTP 403 "Not authorized to view this call")
      else
        match dget state "call_id", dget state "status", dget state "started_at" with
        | Some id, Some status, Some started =>
            inr (mkStatus id (get_default state "call_type" (JStr "voice")) status
                          (get_or_null state "duration") started
                          (get_or_null state "answered_at") (get_or_null state "ended_at")
                          caller receiver)
        | _, _, _ => inl server_error
        end
  | _, _ => inl server_error
  end.

Definition get_call_status (uuid_parse : string -> option string) (actor call_id : string)
    : M cworld status_resp :=
  c_on_redis (calls_rate_limit actor "calls:status" 60 60) ;;;
  raw <-- read_call_state call_id ;;
  let from_db :=
    match uuid_parse call_id with
    | None => raise (ExHTTP 422 "Invalid call_id")
    | Some cid =>
        oc <-- db_get cid ;;
        match oc with
        | None => raise (ExHTTP 404 "Call not found")
        | Some call => ret (call_state_of_row cid call)
        end
    end in
  state <-- (match raw with
             | Some v =>
                 if py_truthy v then
                   match v with JObj kv => ret kv | _ => raise server_error end
                 else from_db
             | None => from_db
             end) ;;
  of_sum (status_response actor state).

(** A path template of the router, below the prefix [/api/v1/calls]: a
    literal segment, or a parameter matching one non-empty segment
    ([[^/]+]). *)
Inductive seg := SLit (s : string) | SParam.

(** The routes of calls.py in the order of their decorators. *)
Definition calls_routes : list (string * list seg * string) :=
  [("GET", [SLit "turn-credentials"], "get_turn_credentials");
   ("POST", [SLit "initiate"], "initiate_call");
   ("POST", [SParam; SLit "answer"], "answer_call");
   ("POST", [SParam; SLit "end"], "end_call");
   ("GET", [SParam], "get_call_status");
   ("GET", [SLit "history"], "get_call_history")].

Fixpoint segs_match (ps : list seg) (xs : list string) : bool :=
  match ps, xs with
  | [], [] => true
  | SLit s :: ps', x :: xs' => String.eqb s x && segs_match ps' xs'
  | SParam :: ps', x :: xs' => negb (String.eqb x "") && segs_match ps' xs'
  | _, _ => false
  end.

(** Starlette serves a request with the first route matching both method
    and path. *)
Definition route_calls (meth : string) (path : list string) : option string :=
  match List.find (fun '(m, ps, _) => String.eqb m meth && segs_match ps path) calls_routes with
  | Some (_, _, h) => Some h
  | None => None
  end.

(** A signing scheme for the examples: the token is the binary text of an
    injective code of the claims, and decoding inverts it. *)
Definition json_leaf : Type := (bool + Z) + string.

Fixpoint json_to_tree (j : json) : gen_tree json_leaf :=
  match j with
  | JNull => GenNode 0 []
  | JBool b => GenLeaf (inl (inl b))
  | JNum z => GenLeaf (inl (inr z))
  | JStr s => GenLeaf (inr s)
  | JArr l => GenNode 1 (map json_to_tree l)
  | JObj kv => GenNode 2 (map (fun '(k, v) => GenNode 3 [GenLeaf (inr k); json_to_tree v]) kv)
  end.

Fixpoint json_of_tree (t : gen_tree json_leaf) : json :=
  match t with
  | GenLeaf (inl (inl b)) => JBool b
  | GenLeaf (inl (inr z)) => JNum z
  | GenLeaf (inr s) => JStr s
  | GenNode 1 ts => JArr (map json_of_tree ts)
  | GenNode 2 ts =>
      JObj (map (fun t => match t with
                          | GenNode 3 [GenLeaf (inr k); v] => (k, json_of_tree v)
                          | _ => ("", JNull)
                          end) ts)
  | _ => JNull
  end.

Fixpoint pos_text (p : positive) : string :=
  match p with
  | xH => ""
  | xO p' => String (Ascii.ascii_of_nat 48) (pos_text p')
  | xI p' => String (Ascii.ascii_of_nat 49) (pos_text p')
  end.

Fixpoint text_pos (s : string) : positive :=
  match s with
  | EmptyString => xH
  | String c s' => if Ascii.eqb c (Ascii.ascii_of_nat 49) then xI (text_pos s') else xO (text_pos s')
  end.

Definition jwt_encode_demo (p : list (string * json)) : string :=
  pos_text (encode (json_to_tree (JObj p))).

Definition jwt_decode_demo (token : string) : option (list (string * json)) :=
  match decode (text_pos token) with
  | Some t => match json_of_tree t with JObj kv => Some kv | _ => None end
  | None => None
  end.

(** A JSON text codec standing for [json.dumps] and [json.loads] in the
    examples: the value's tree, numbered and written in binary. *)
Definition dumps_codec (j : json) : string := pos_text (encode (json_to_tree j)).

Definition loads_codec (s : string) : option json :=
  match decode (text_pos s) with Some t => Some (json_of_tree t) | None => None end.

(* ------------------------------------------------------------------ *)
(** ** Relations between process states used by the invariants below *)

Definition is_digit (c : Ascii.ascii) : Prop := (48 <= Ascii.nat_of_ascii c <= 57)%nat.

(** [m] relates every state to its successor by [P]. *)
Definition preserves {A} (P : wsworld -> wsworld -> Prop) (m : M wsworld A) : Prop :=
  forall w, P w (snd (m w)).

(** The registry of [w'] holds no socket that [w] does not hold. *)
Definition reg_le (w w' : wsworld) : Prop :=
  forall u, default ∅ (ws_reg w' !! u) ⊆ default ∅ (ws_reg w !! u).

(** A step of the receive loop: sockets may be dropped from the registry,
    none is accepted, closed or subscribed. *)
Definition inner_step (w w' : wsworld) : Prop :=
  reg_le w w' /\ ws_accepted w' = ws_accepted w /\ ws_closed w' = ws_closed w /\
  ws_subs w' = ws_subs w.

(* ================================================================== *)
(** * Proofs *)

Open Scope list_scope.

(** ** Redis store lemmas *)

Lemma r_live_insert_same s up now pub k v e :
  r_live (mkRedis (<[k := mkEntry v e]> s) up now pub) k =
  match e with
  | Some t => if Z.ltb t now then None else Some (mkEntry v e)
  | None => Some (mkEntry v e)
  end.
Proof. unfold r_live; simpl. by rewrite lookup_insert_eq. Qed.

Lemma ttl_round_window (w : Z) : (0 <= w)%Z -> ((Z.max 0 (1000 * w) + 500) / 1000 = w)%Z.
Proof.
  intros Hw. rewrite Z.max_r by lia.
  replace (1000 * w + 500)%Z with (w * 1000 + 500)%Z by lia.
  rewrite Z.div_add_l by lia. change (500 / 1000)%Z with 0%Z. lia.
Qed.

Section RateLimiter.
Variable limited : Z -> exc.
Variable own : exc -> bool.
Hypothesis own_limited : forall r, own (limited r) = true.

(** A call on a key that is missing or expired: the counter restarts at 1
    with a fresh expiry of [window_seconds]. *)
Lemma rl_fresh uid act limit w R :
  r_up R = true -> (0 < w)%Z -> r_live R (rl_key uid act) = None ->
  rate_limit_gen limited own uid act limit w R =
  ((if Z.ltb limit 1 then inl (limited w) else inr tt),
   r_with_store R (<[rl_key uid act := mkEntry (RInt 1) (Some (r_now R + 1000 * w)%Z)]> (r_store R))).
Proof.
  intros Hup Hw Hlive.
  unfold rate_limit_gen, catch, bind, rcall, ret, raise. fold (rl_key uid act).
  rewrite Hup. unfold op_incr. rewrite Hlive.
  unfold op_expire, op_ttl, r_with_store.
  cbn -[r_live rl_key]. rewrite Hup, r_live_insert_same.
  destruct (Z.leb_spec w 0); [lia|].
  cbn -[r_live rl_key]. rewrite insert_insert_eq.
  destruct (Z.ltb_spec limit 1).
  - cbn -[r_live rl_key]. rewrite r_live_insert_same.
    destruct (Z.ltb_spec (r_now R + 1000 * w) (r_now R)); [lia|].
    cbn -[rl_key].
    replace (r_now R + 1000 * w - r_now R)%Z with (1000 * w)%Z by lia.
    rewrite ttl_round_window by lia.
    destruct (Z.ltb_spec 0 w); [|lia]. rewrite own_limited. reflexivity.
  - reflexivity.
Qed.


Lemma rl_step uid act limit w R n e :
  r_up R = true -> (1 <= n)%Z ->
  r_live R (rl_key uid act) = Some (mkEntry (RInt n) e) ->
  rate_limit_gen limited own uid act limit w R =
  (rl_verdict limited limit w e (n + 1) (r_now R),
   r_with_store R (<[rl_key uid act := mkEntry (RInt (n + 1)) e]> (r_store R))).
Proof.
  intros Hup Hn Hlive.
  unfold rate_limit_gen, catch, bind, rcall, ret, raise. fold (rl_key uid act).
  rewrite Hup. unfold op_incr. rewrite Hlive.
  unfold op_expire, op_ttl, r_with_store.
  cbn -[r_live rl_key]. rewrite Hup.
  destruct (Z.eqb_spec (n + 1) 1); [lia|].
  unfold rl_verdict.
  destruct (Z.ltb_spec limit (n + 1)); [|reflexivity].
  cbn -[r_live rl_key]. rewrite r_live_insert_same.
  destruct e as [t|].
  - assert (Ht : (t <? r_now R)%Z = false).
    { unfold r_live in Hlive. repeat case_match; simplify_eq/=; done. }
    rewrite Ht. cbn -[rl_key]. rewrite own_limited. reflexivity.
  - cbn -[rl_key]. rewrite own_limited. reflexivity.
Qed.

Lemma rl_run_window uid act limit w ts : forall R n E,
  r_up R = true -> (1 <= n)%Z ->
  r_store R !! rl_key uid act = Some (mkEntry (RInt n) (Some E)) ->
  (forall t, t ∈ ts -> (t <= E)%Z) ->
  fst (rl_run (rate_limit_gen limited own uid act limit w) ts R) =
  rl_expected limited limit w (Some E) ts (n + 1).
Proof.
  induction ts as [|t ts IH]; intros R n E Hup Hn HR Hts; [done|].
  simpl.
  rewrite (rl_step uid act limit w (r_at t R) n (Some E)); [| done | done |].
  2:{ unfold r_live; simpl. rewrite HR. simpl.
      destruct (Z.ltb_spec E t); [|done].
      specialize (Hts t ltac:(set_solver)). lia. }
  destruct (rl_run _ ts _) as [rs R2] eqn:Hrun.
  simpl. f_equal.
  replace rs with (fst (rl_run (rate_limit_gen limited own uid act limit w) ts
    (r_with_store (r_at t R)
       (<[rl_key uid act:={| r_val := RInt (n + 1); r_exp := Some E |}]> (r_store (r_at t R))))))
    by (rewrite Hrun; done).
  rewrite (IH _ (n + 1)%Z E); [done | done | lia | |].
  - unfold r_with_store; simpl. by rewrite lookup_insert_eq.
  - intros t' Ht'. apply Hts. set_solver.
Qed.

Lemma rl_run_first_window uid act limit w t1 ts R :
  r_up R = true -> (0 < w)%Z ->
  r_live (r_at t1 R) (rl_key uid act) = None ->
  (forall t, t ∈ ts -> (t <= t1 + 1000 * w)%Z) ->
  fst (rl_run (rate_limit_gen limited own uid act limit w) (t1 :: ts) R) =
  rl_expected limited limit w (Some (t1 + 1000 * w)%Z) (t1 :: ts) 1.
Proof.
  intros Hup Hw Hlive Hts. simpl.
  rewrite (rl_fresh uid act limit w (r_at t1 R)); [| done | done | done].
  destruct (rl_run _ ts _) as [rs R2] eqn:Hrun. simpl. f_equal.
  - unfold rl_verdict, ttl_secs.
    replace (t1 + 1000 * w - t1)%Z with (1000 * w)%Z by lia.
    rewrite ttl_round_window by lia.
    destruct (Z.ltb_spec 0 w); [|lia]. reflexivity.
  - replace rs with (fst (rl_run (rate_limit_gen limited own uid act limit w) ts
      (r_with_store (r_at t1 R)
         (<[rl_key uid act:={| r_val := RInt 1; r_exp := Some (r_now (r_at t1 R) + 1000 * w)%Z |}]>
            (r_store (r_at t1 R)))))) by (rewrite Hrun; done).
    rewrite (rl_run_window uid act limit w ts _ 1 (t1 + 1000 * w)%Z); [done|done|lia| |done].
    unfold r_with_store; simpl. by rewrite lookup_insert_eq.
Qed.
End RateLimiter.

Lemma rl_expected_lookup limited limit w e ts : forall n i t,
  ts !! i = Some t ->
  rl_expected limited limit w e ts n !! i = Some (rl_verdict limited limit w e (n + Z.of_nat i) t).
Proof.
  induction ts as [|t0 ts IH]; intros n i t Hi; [done|].
  destruct i as [|i]; simpl in *.
  - inversion Hi; subst. f_equal. f_equal. lia.
  - rewrite (IH (n + 1)%Z i t Hi). do 2 f_equal. lia.
Qed.

Lemma rl_expected_length limited limit w e ts : forall n,
  length (rl_expected limited limit w e ts n) = length ts.
Proof. induction ts; simpl; auto. Qed.


(** ** C7: fixed-window rate limiter *)

(** C7. For both limiters (websockets.rate_limit and calls.rate_limit) and
    every (user, action) key: starting a window with the first call at time
    [t1] (key missing or expired), the [N]-th call made while the window is
    live (time [<= t1 + window]) succeeds iff [N <= limit]; a refused call
    carries the remaining window time reported by TTL, or [window_seconds]
    when that time is not positive. After a window has expired, the next
    call is treated as call #1 and sets a fresh expiry of [window_seconds];
    a counter without expiry falls back to [window_seconds]. *)
Theorem rate_limit_fixed_window (limited : Z -> exc) (own : exc -> bool) :
  (limited, own) = (ws_limited, is_runtime) \/ (limited, own) = (http_limited, is_http) ->
  forall uid act (limit w : Z) (R : redis) (t1 : Z) (ts : list Z),
  r_up R = true -> (0 < w)%Z ->
  r_live (r_at t1 R) (rl_key uid act) = None ->
  (forall t, t ∈ ts -> (t <= t1 + 1000 * w)%Z) ->
  let results := fst (rl_run (rate_limit_gen limited own uid act limit w) (t1 :: ts) R) in
  length results = length (t1 :: ts) /\
  (forall (i : nat) (t : Z), (t1 :: ts) !! i = Some t ->
     results !! i =
     Some (if Z.ltb limit (Z.of_nat i + 1) then
             inl (limited (let r := ttl_secs (Some (t1 + 1000 * w)%Z) t in
                           if Z.ltb 0 r then r else w))
           else inr tt)) /\
  (forall (R' : redis) (n e : Z),
     r_up R' = true ->
     r_store R' !! rl_key uid act = Some (mkEntry (RInt n) (Some e)) -> (e < r_now R')%Z ->
     rate_limit_gen limited own uid act limit w R' =
     ((if Z.ltb limit 1 then inl (limited w) else inr tt),
      r_with_store R' (<[rl_key uid act := mkEntry (RInt 1) (Some (r_now R' + 1000 * w)%Z)]>
                         (r_store R')))) /\
  (forall (R' : redis) (n : Z),
     r_up R' = true -> (1 <= n)%Z -> (limit < n + 1)%Z ->
     r_live R' (rl_key uid act) = Some (mkEntry (RInt n) None) ->
     fst (rate_limit_gen limited own uid act limit w R') = inl (limited w)).
Proof.
  intros Hv uid act limit w R t1 ts Hup Hw Hlive Hts results.
  assert (Hown : forall r, own (limited r) = true)
    by (destruct Hv as [Hv|Hv]; inversion Hv; subst; reflexivity).
  assert (Hres : results = rl_expected limited limit w (Some (t1 + 1000 * w)%Z) (t1 :: ts) 1)
    by (apply rl_run_first_window; assumption).
  split; [|split; [|split]].
  - rewrite Hres, rl_expected_length. reflexivity.
  - intros i t Hi. rewrite Hres, (rl_expected_lookup _ _ _ _ _ _ i t Hi).
    unfold rl_verdict. replace (1 + Z.of_nat i)%Z with (Z.of_nat i + 1)%Z by lia. reflexivity.
  - intros R' n e Hup' Hst Hexp. apply rl_fresh; [done|done|done|].
    unfold r_live. rewrite Hst. simpl. destruct (Z.ltb_spec e (r_now R')); [done|lia].
  - intros R' n Hup' Hn Hlim Hl.
    rewrite (rl_step limited own Hown uid act limit w R' n None Hup' Hn Hl). simpl.
    unfold rl_verdict. destruct (Z.ltb_spec limit (n + 1)); [reflexivity|lia].
Qed.

Lemma rate_limit_fixed_window_witness :
  (ws_limited, is_runtime) = (ws_limited, is_runtime) /\
  let R := mkRedis ∅ true 0 [] in
  let results := fst (rl_run (rate_limit_gen ws_limited is_runtime "u" "ws:ping" 2 30) [0; 1000; 29000]%Z R) in
  length results = 3%nat /\
  results = [inr tt; inr tt; inl (ExRuntime ("rate_limited:" +:+ pretty 1%Z))].
Proof.
  split; [reflexivity|].
  pose proof (rate_limit_fixed_window ws_limited is_runtime (or_introl eq_refl)
                "u" "ws:ping" 2 30 (mkRedis ∅ true 0 []) 0 [1000; 29000]%Z
                eq_refl ltac:(lia) eq_refl) as H.
  destruct H as [Hlen [Hnth _]].
  { intros t Ht. apply list_elem_of_In in Ht. simpl in Ht. lia. }
  simpl. split; [exact Hlen|].
  vm_compute. reflexivity.
Defined.

(** ** Registry lemmas *)

Lemma disconnect_set_entry uid ws T (reg : gmap string (gset nat)) :
  disconnect uid ws (set_entry uid T reg) = set_entry uid (T ∖ {[ws]}) reg.
Proof.
  unfold set_entry, disconnect.
  destruct (bool_decide (T = ∅)) eqn:HT.
  - apply bool_decide_eq_true in HT. subst T.
    rewrite lookup_delete_eq.
    rewrite bool_decide_eq_true_2; [done | set_solver].
  - apply bool_decide_eq_false in HT.
    rewrite lookup_insert_eq, bool_decide_eq_false_2 by done.
    destruct (bool_decide (ws ∈ T)) eqn:Hw.
    + apply bool_decide_eq_true in Hw.
      destruct (bool_decide (T ∖ {[ws]} = ∅)).
      * by rewrite delete_insert_eq.
      * by rewrite insert_insert_eq.
    + apply bool_decide_eq_false in Hw.
      assert (T ∖ {[ws]} = T) as -> by set_solver.
      rewrite bool_decide_eq_false_2 by done. done.
Qed.

Lemma send_each_set_entry dead uid data l : forall T (reg : gmap string (gset nat)),
  send_each dead uid data l (set_entry uid T reg) =
  (set_entry uid (T ∖ list_to_set (filter (fun x => x ∈ dead) l)) reg,
   map (fun ws => if bool_decide (ws ∈ dead) then SendFail ws data else SendOk ws data) l).
Proof.
  induction l as [|ws l IH]; intros T reg; simpl.
  - f_equal. f_equal. set_solver.
  - destruct (bool_decide (ws ∈ dead)) eqn:Hd.
    + apply bool_decide_eq_true in Hd.
      rewrite disconnect_set_entry, IH.
      rewrite filter_cons_True by done. simpl.
      f_equal. f_equal. set_solver.
    + apply bool_decide_eq_false in Hd.
      rewrite IH. rewrite filter_cons_False by done. done.
Qed.

Lemma set_entry_id uid S (reg : gmap string (gset nat)) :
  reg !! uid = Some S -> S ≠ ∅ -> set_entry uid S reg = reg.
Proof.
  intros HS Hne. unfold set_entry. rewrite bool_decide_eq_false_2 by done.
  by apply insert_id.
Qed.

Lemma minus_filter_elements (S dead : gset nat) :
  S ∖ list_to_set (filter (fun x => x ∈ dead) (elements S)) = S ∖ dead.
Proof.
  apply set_eq. intros x.
  rewrite !elem_of_difference, elem_of_list_to_set, list_elem_of_filter, elem_of_elements.
  tauto.
Qed.

Lemma send_to_user_shape dumps dead uid msg (reg : gmap string (gset nat)) S :
  reg !! uid = Some S -> S ≠ ∅ ->
  send_to_user dumps dead uid msg reg =
  (set_entry uid (S ∖ dead) reg,
   map (fun ws => if bool_decide (ws ∈ dead) then SendFail ws (dumps msg) else SendOk ws (dumps msg))
       (elements S)).
Proof.
  intros HS Hne. unfold send_to_user. rewrite HS. simpl.
  rewrite bool_decide_eq_false_2 by done.
  assert (Hsplit : send_each dead uid (dumps msg) (elements S) reg =
                   send_each dead uid (dumps msg) (elements S) (set_entry uid S reg))
    by (rewrite (set_entry_id uid S reg HS Hne); done).
  rewrite Hsplit, send_each_set_entry, minus_filter_elements. done.
Qed.

Lemma set_entry_wf uid T (reg : gmap string (gset nat)) :
  reg_wf reg -> reg_wf (set_entry uid T reg).
Proof.
  intros Hwf u S. unfold set_entry. case_bool_decide as HT.
  - rewrite lookup_delete. case_decide; [done|]. apply Hwf.
  - rewrite lookup_insert. case_decide; [intros [=<-]; done|]. apply Hwf.
Qed.

Lemma connect_wf uid ws (reg : gmap string (gset nat)) :
  reg_wf reg -> reg_wf (connect uid ws reg).
Proof.
  intros Hwf u S. unfold connect. rewrite lookup_insert.
  case_decide; [intros [=<-]; set_solver|]. apply Hwf.
Qed.

Lemma disconnect_wf uid ws (reg : gmap string (gset nat)) :
  reg_wf reg -> reg_wf (disconnect uid ws reg).
Proof.
  intros Hwf. unfold disconnect.
  destruct (reg !! uid) as [conns|] eqn:Hc; [|done].
  case_bool_decide; [done|]. case_bool_decide; [|done].
  case_bool_decide as Hne.
  - intros u S. rewrite lookup_delete. case_decide; [done|]. apply Hwf.
  - intros u S. rewrite lookup_insert. case_decide; [intros [=<-]; done|]. apply Hwf.
Qed.

Lemma send_to_user_wf dumps dead uid msg (reg : gmap string (gset nat)) :
  reg_wf reg -> reg_wf (fst (send_to_user dumps dead uid msg reg)).
Proof.
  intros Hwf. destruct (reg !! uid) as [S|] eqn:HS.
  - destruct (decide (S = ∅)) as [->|Hne].
    + unfold send_to_user. rewrite HS. simpl. done.
    + rewrite (send_to_user_shape dumps dead uid msg reg S HS Hne). simpl.
      by apply set_entry_wf.
  - unfold send_to_user. rewrite HS. simpl. done.
Qed.

Lemma run_reg_ops_wf dumps dead ops : forall (reg : gmap string (gset nat)),
  reg_wf reg -> reg_wf (run_reg_ops dumps dead ops reg).
Proof.
  induction ops as [|o ops IH]; intros reg Hwf; simpl; [done|].
  apply IH. destruct o; simpl.
  - by apply connect_wf.
  - by apply disconnect_wf.
  - by apply send_to_user_wf.
Qed.

(** ** C6: fan-out to every socket of a user *)

(** C6. For a user with N >= 1 registered sockets [S], [send_to_user]
    serializes the message once ([dumps message]) and attempts to send that
    same text to each of the N sockets exactly once ([elements S] has no
    duplicates and has size N); a socket whose send fails does not stop the
    attempts on the others; the function returns normally (its result has no
    error case), and afterwards the user's entry holds exactly the sockets
    that did not fail (dropped when none is left), every other user's entry
    being unchanged. *)
Theorem send_to_user_fanout (dumps : json -> string) (dead : gset nat) (uid : string)
    (msg : json) (reg : gmap string (gset nat)) (S : gset nat) :
  reg !! uid = Some S -> S ≠ ∅ ->
  let '(reg', evs) := send_to_user dumps dead uid msg reg in
  evs = map (fun ws => if bool_decide (ws ∈ dead) then SendFail ws (dumps msg)
                       else SendOk ws (dumps msg)) (elements S) /\
  NoDup (elements S) /\ length (elements S) = size S /\
  reg' !! uid = (if bool_decide (S ∖ dead = ∅) then None else Some (S ∖ dead)) /\
  (forall u, u ≠ uid -> reg' !! u = reg !! u).
Proof.
  intros HS Hne. rewrite (send_to_user_shape dumps dead uid msg reg S HS Hne).
  split; [done|]. split; [apply NoDup_elements|]. split; [done|].
  unfold set_entry. split.
  - case_bool_decide; [by rewrite lookup_delete_eq | by rewrite lookup_insert_eq].
  - intros u Hu. case_bool_decide; [by rewrite lookup_delete_ne | by rewrite lookup_insert_ne].
Qed.

Lemma send_to_user_fanout_witness :
  let reg := {[ "alice" := ({[1%nat; 2%nat; 3%nat]} : gset nat) ]} : gmap string (gset nat) in
  let '(reg', evs) := send_to_user (fun _ => "{}") {[2%nat]} "alice" (JObj []) reg in
  length evs = 3%nat /\ reg' !! "alice" = Some ({[1%nat; 3%nat]} : gset nat).
Proof.
  pose proof (send_to_user_fanout (fun _ => "{}") {[2%nat]} "alice" (JObj [])
                {[ "alice" := ({[1%nat; 2%nat; 3%nat]} : gset nat) ]}
                {[1%nat; 2%nat; 3%nat]} (lookup_singleton_eq _ _) ltac:(set_solver)) as H.
  simpl. destruct (send_to_user _ _ _ _ _) as [reg' evs].
  destruct H as [-> [_ [Hlen [Hu _]]]]. split.
  - rewrite length_map, Hlen. vm_compute. reflexivity.
  - rewrite Hu. vm_compute. reflexivity.
Defined.

(** ** C10: the registry never keeps an empty socket set *)

(** C10. Starting from a registry without empty entries (in particular the
    empty registry of a fresh [ConnectionManager]), any sequence of
    [connect], [disconnect] and [send_to_user] leaves no user mapped to an
    empty socket set; and [disconnect] of a socket not registered under the
    user (or of an unknown user) returns the registry unchanged. *)
Theorem registry_no_empty_sets (dumps : json -> string) (dead : gset nat)
    (ops : list reg_op) (reg : gmap string (gset nat)) :
  reg_wf reg ->
  reg_wf (run_reg_ops dumps dead ops reg) /\
  (forall u ws, (forall S, reg !! u = Some S -> ws ∉ S) -> disconnect u ws reg = reg).
Proof.
  intros Hwf. split; [by apply run_reg_ops_wf|].
  intros u ws Hnot. unfold disconnect.
  destruct (reg !! u) as [S|] eqn:HS; [|done].
  case_bool_decide; [done|].
  rewrite bool_decide_eq_false_2; [done|]. by apply Hnot.
Qed.

Lemma registry_no_empty_sets_witness :
  reg_wf (∅ : gmap string (gset nat)) /\
  reg_wf (run_reg_ops (fun _ => "{}") {[1%nat]}
            [OpConnect "a" 1; OpConnect "a" 2; OpSend "a" JNull; OpDisconnect "a" 2] ∅).
Proof.
  assert (H0 : reg_wf (∅ : gmap string (gset nat))) by (intros u S; done).
  split; [exact H0|].
  apply (registry_no_empty_sets (fun _ => "{}") {[1%nat]}
           [OpConnect "a" 1; OpConnect "a" 2; OpSend "a" JNull; OpDisconnect "a" 2] ∅ H0).
Defined.

(** ** Publishing: the limiter publishes nothing *)








Lemma kind_is_det kv k k' : kind_is kv k = true -> kind_is kv k' = String.eqb k k'.
Proof.
  unfold kind_is. destruct (dget kv "type") as [[]|]; try done.
  intros Hs. apply String.eqb_eq in Hs. subst. done.
Qed.

Lemma list_ascii_of_string_app (s1 s2 : string) :
  String.list_ascii_of_string (s1 +:+ s2) =
  String.list_ascii_of_string s1 ++ String.list_ascii_of_string s2.
Proof. induction s1; simpl; [done|]. by rewrite IHs1. Qed.





Lemma ws_rate_limit_room uid act limit w R :
  r_up R = true -> (1 <= limit)%Z -> (0 < w)%Z -> limiter_room R (rl_key uid act) limit = true ->
  exists R', ws_rate_limit uid act limit w R = (inr tt, R') /\
    r_up R' = true /\ r_pub R' = r_pub R.
Proof.
  intros Hup Hl Hw Hroom. unfold limiter_room in Hroom.
  destruct (r_live R (rl_key uid act)) as [[v e]|] eqn:Hlive.
  - destruct v as [n| |]; try discriminate.
    apply andb_true_iff in Hroom as [H1 H2]. apply Z.leb_le in H1. apply Z.ltb_lt in H2.
    unfold ws_rate_limit.
    rewrite (rl_step ws_limited is_runtime (fun _ => eq_refl) uid act limit w R n e Hup H1 Hlive).
    eexists. split; [unfold rl_verdict; destruct (Z.ltb_spec limit (n + 1)); [lia|reflexivity]|done].
  - unfold ws_rate_limit.
    rewrite (rl_fresh ws_limited is_runtime (fun _ => eq_refl) uid act limit w R Hup Hw Hlive).
    eexists. split; [destruct (Z.ltb_spec limit 1); [lia|reflexivity]|done].
Qed.













(** ** Glob matching *)

Lemma glob_star_unfold p' s :
  glob (Ascii.ascii_of_nat 42 :: p') s =
  glob p' s || match s with [] => false | _ :: s' => glob (Ascii.ascii_of_nat 42 :: p') s' end.
Proof. destruct s; reflexivity. Qed.

Lemma glob_star_app p' a b :
  glob p' b = true -> glob (Ascii.ascii_of_nat 42 :: p') (a ++ b) = true.
Proof.
  intros Hb. induction a as [|c a IH]; simpl app; rewrite glob_star_unfold.
  - rewrite Hb. done.
  - rewrite IH. apply orb_true_r.
Qed.

Lemma glob_refl l : glob l l = true.
Proof.
  induction l as [|c l IH]; [done|].
  destruct (Ascii.eqb_spec c (Ascii.ascii_of_nat 42)) as [->|Hc].
  - apply (glob_star_app l [Ascii.ascii_of_nat 42] l IH).
  - simpl. apply Ascii.eqb_neq in Hc. rewrite Hc, IH, Ascii.eqb_refl, orb_true_r. done.
Qed.

Lemma glob_lit_cons c p s :
  c <> Ascii.ascii_of_nat 42 -> glob (c :: p) (c :: s) = glob p s.
Proof.
  intros Hc. simpl. apply Ascii.eqb_neq in Hc. rewrite Hc, Ascii.eqb_refl, orb_true_r. done.
Qed.

Lemma pattern_matches_refl ch : pattern_matches ch ch = true.
Proof. apply glob_refl. Qed.


(** ** C1: a rate-limited event ends the connection *)

(** C1 (code bug). Connection of user [u] (token [tok-u], socket 7)
    sending 31 pings within one second and then the frame [hello]. The 31st
    ping exceeds the [ws:ping] budget (30 per 30 s): [rate_limit] raises
    [RuntimeError("rate_limited:30")], which [_handle_client_event] does not
    catch; the receive loop's [except Exception] ends the loop and [finally]
    removes the socket from the registry. Only the 30 pongs are sent: the
    frame [hello] is never processed (with 3 pings, it is echoed as the 4th
    frame sent). *)
Theorem rate_limited_event_drops_connection :
  let frames := ping_frames 31 ++ [(31%Z, "hello")] in
  fst (recv_loop dumps_demo loads_demo "u" frames (snd (mgr_connect "u" 7 world0))) =
    inl (ExRuntime ("rate_limited:" +:+ pretty 30%Z)) /\
  let W := snd (websocket_endpoint dumps_demo loads_demo jwt_demo "tok-u" 7 frames world0) in
  ws_accepted W = [7] /\ ws_reg W = ∅ /\ length (ws_sent W) = 30 /\
  length (ws_sent (snd (websocket_endpoint dumps_demo loads_demo jwt_demo "tok-u" 7
                          (ping_frames 3 ++ [(3%Z, "hello")]) world0))) = 4.
Proof. vm_compute. repeat split; reflexivity. Qed.

(** ** C2: events with an empty target *)

(** C2 (code bug). [read_receipt] and [message] have no empty-target guard
    (unlike [typing] and [signal]): with no [receiver_id] they still publish,
    on the channels [ws:messages:read:] and [ws:messages:] of the empty
    subject, while a [signal] with no [to] publishes nothing. *)
Theorem empty_target_still_publishes :
  let run ev := handle_client_event dumps_demo "u" (JObj ev) world0 in
  let chans ev := map fst (r_pub (ws_redis (snd (run ev)))) in
  fst (run [("type", JStr "read_receipt"); ("message_ids", JArr [JStr "m1"])]) = inr tt /\
  chans [("type", JStr "read_receipt"); ("message_ids", JArr [JStr "m1"])] = ["ws:messages:read:"] /\
  chans [("type", JStr "message"); ("message_id", JStr "m1")] = ["ws:messages:"] /\
  chans [("type", JStr "signal"); ("signal_type", JStr "offer")] = [].
Proof. vm_compute. repeat split; reflexivity. Qed.

(** ** C3: channel names *)




(** ** C8: token gate *)

(** C8 (counterexample). An access token whose [jti] is the empty string is
    admitted although [""] is in the revocation set: [if jti:] skips the
    blacklist lookup for a falsy identifier. *)
Lemma token_gate_empty_jti_admitted :
  let W := snd (websocket_endpoint dumps_demo loads_demo jwt_jti "tok-e" 7 [] world_bl) in
  "" ∈ ({[""; "j1"]} : gset string) /\ ws_accepted W = [7] /\ ws_closed W = [].
Proof. split; [set_solver|]. vm_compute. split; reflexivity. Qed.

Lemma with_client_id w : ws_client w = true -> with_client w = w.
Proof. destruct w; simpl; intros ->; reflexivity. Qed.

Lemma endpoint_auth_refused dumps loads jwt_decode token ws frames W :
  (ws_client W = true \/ r_up (ws_redis W) = true ->
   exists e, validate_token_and_blacklist jwt_decode token (with_client W) = (inl e, with_client W)) ->
  websocket_endpoint dumps loads jwt_decode token ws frames W = ws_close ws 1008 (with_client W).
Proof.
  intros Hv. unfold websocket_endpoint, bind at 1, catch at 1, bind at 1, get_redis.
  destruct (ws_client W) eqn:Hc.
  - destruct (Hv (or_introl eq_refl)) as [e He]. rewrite (with_client_id W Hc) in He |- *.
    unfold bind at 1. rewrite He. reflexivity.
  - destruct (r_up (ws_redis W)) eqn:Hup; [|reflexivity].
    destruct (Hv (or_intror eq_refl)) as [e He]. unfold bind at 1. rewrite He. reflexivity.
Qed.

Lemma validate_refresh jwt_decode token W payload :
  jwt_decode token = Some payload -> dget payload "type" = Some (JStr "refresh") ->
  validate_token_and_blacklist jwt_decode token W = (inl (ExRuntime "invalid_token"), W).
Proof.
  intros Hdec Hty. unfold validate_token_and_blacklist, verify_token. rewrite Hdec, Hty. reflexivity.
Qed.

(** A revoked identifier is refused whether the lookup answers (it is a
    member) or fails (Redis unreachable): both end in
    [blacklist_check_failed]. *)
Lemma validate_revoked jwt_decode token W payload j S e :
  jwt_decode token = Some payload -> dget payload "type" = Some (JStr "access") ->
  get_or_null payload "jti" = JStr j -> j <> "" ->
  r_live (ws_redis W) "jwt:blacklist" = Some (mkEntry (RSet S) e) -> j ∈ S ->
  validate_token_and_blacklist jwt_decode token W = (inl (ExRuntime "blacklist_check_failed"), W).
Proof.
  intros Hdec Hty Hj Hne Hbl HjS.
  unfold validate_token_and_blacklist, verify_token. rewrite Hdec, Hty. cbn [String.eqb Ascii.eqb Bool.eqb andb].
  rewrite Hj. unfold py_truthy. destruct (String.eqb_spec j "") as [|_]; [contradiction|].
  cbn [negb redis_encode]. unfold bind, catch, on_redis, rcall.
  destruct (r_up (ws_redis W)); [|destruct W; reflexivity].
  unfold op_sismember. rewrite Hbl. rewrite bool_decide_eq_true_2 by exact HjS.
  destruct W. reflexivity.
Qed.

(** C8 (amended). Admission of a token whose decoded payload is [payload]:
    a refresh token, or an access token whose [jti] is a non-empty string in
    the live [jwt:blacklist] set, is refused by exactly one close with code
    1008 and no other effect (beyond [get_redis] assigning the module's
    Redis client, as on any first use); an access token with a falsy [jti]
    (absent, [null], empty) passes [_validate_token_and_blacklist] without
    any Redis lookup. *)
Theorem token_gate_refusals (dumps : json -> string) (loads : string -> option json)
    (jwt_decode : string -> option (list (string * json))) (token : string) (ws : nat)
    (frames : list (Z * string)) (W : wsworld) (payload : list (string * json)) :
  jwt_decode token = Some payload ->
  (dget payload "type" = Some (JStr "refresh") ->
     websocket_endpoint dumps loads jwt_decode token ws frames W = ws_close ws 1008 (with_client W)) /\
  (forall j S e, dget payload "type" = Some (JStr "access") ->
     get_or_null payload "jti" = JStr j -> j <> "" ->
     r_live (ws_redis W) "jwt:blacklist" = Some (mkEntry (RSet S) e) -> j ∈ S ->
     websocket_endpoint dumps loads jwt_decode token ws frames W = ws_close ws 1008 (with_client W)) /\
  (dget payload "type" = Some (JStr "access") -> py_truthy (get_or_null payload "jti") = false ->
     validate_token_and_blacklist jwt_decode token W = (inr payload, W)).
Proof.
  intros Hdec. split; [|split].
  - intros Hty. apply endpoint_auth_refused. intros _.
    eexists. apply (validate_refresh _ _ _ _ Hdec Hty).
  - intros j S e Hty Hj Hne Hbl HjS. apply endpoint_auth_refused. intros _.
    eexists. apply (validate_revoked _ _ (with_client W) _ j S e Hdec Hty Hj Hne Hbl HjS).
  - intros Hty Hj. unfold validate_token_and_blacklist, verify_token.
    rewrite Hdec, Hty. cbn [String.eqb Ascii.eqb Bool.eqb andb]. rewrite Hj. reflexivity.
Qed.

Lemma token_gate_refusals_witness :
  websocket_endpoint dumps_demo loads_demo jwt_refresh "tok-r" 7 [] world0 =
    ws_close 7 1008 (with_client world0) /\
  websocket_endpoint dumps_demo loads_demo jwt_jti "tok-j" 7 [] world_bl =
    ws_close 7 1008 (with_client world_bl).
Proof.
  split.
  - apply (proj1 (token_gate_refusals dumps_demo loads_demo jwt_refresh "tok-r" 7 [] world0 _ eq_refl)).
    reflexivity.
  - apply (proj1 (proj2 (token_gate_refusals dumps_demo loads_demo jwt_jti "tok-j" 7 [] world_bl _ eq_refl))
             "j1" {[""; "j1"]} None);
      [reflexivity | reflexivity | discriminate | vm_compute; reflexivity | set_solver].
Defined.

(** ** Calls: Redis steps *)

Lemma calls_rate_limit_result uid act limit w R :
  (fst (calls_rate_limit uid act limit w R) = inr tt \/
   exists d, fst (calls_rate_limit uid act limit w R) = inl (ExHTTP 429 d)) /\
  r_now (snd (calls_rate_limit uid act limit w R)) = r_now R.
Proof.
  unfold calls_rate_limit, rate_limit_gen, catch, bind, rcall, ret, raise,
    op_incr, op_expire, op_ttl, http_limited, is_http, r_with_store.
  repeat (case_match; simplify_eq/=); eauto.
Qed.

Lemma rate_limit_down limited own uid act limit w R :
  r_up R = false -> own ExRedis = false ->
  rate_limit_gen limited own uid act limit w R = (inr tt, R).
Proof.
  intros Hd Ho. unfold rate_limit_gen, catch, bind, rcall. rewrite Hd, Ho. reflexivity.
Qed.

Lemma r_live_insert_ne (R : redis) k k' v :
  k' <> k -> r_live (r_with_store R (<[k := v]> (r_store R))) k' = r_live R k'.
Proof. intros Hne. unfold r_live, r_with_store. simpl. by rewrite lookup_insert_ne by congruence. Qed.

Lemma calls_rate_limit_room uid act limit w R :
  r_up R = true -> (1 <= limit)%Z -> (0 < w)%Z -> limiter_room R (rl_key uid act) limit = true ->
  exists R', calls_rate_limit uid act limit w R = (inr tt, R') /\
    r_up R' = true /\ r_now R' = r_now R /\
    forall k, k <> rl_key uid act -> r_live R' k = r_live R k.
Proof.
  intros Hup Hl Hw Hroom. unfold limiter_room in Hroom.
  destruct (r_live R (rl_key uid act)) as [[v e]|] eqn:Hlive.
  - destruct v as [n| |]; try discriminate.
    apply andb_true_iff in Hroom as [H1 H2]. apply Z.leb_le in H1. apply Z.ltb_lt in H2.
    unfold calls_rate_limit.
    rewrite (rl_step http_limited is_http (fun _ => eq_refl) uid act limit w R n e Hup H1 Hlive).
    eexists. split.
    + unfold rl_verdict. destruct (Z.ltb_spec limit (n + 1)); [lia|reflexivity].
    + split; [done|split; [done|]]. intros k Hk. by apply r_live_insert_ne.
  - unfold calls_rate_limit. rewrite (rl_fresh http_limited is_http (fun _ => eq_refl) uid act limit w R Hup Hw Hlive).
    eexists. split.
    + destruct (Z.ltb_spec limit 1); [lia|reflexivity].
    + split; [done|split; [done|]]. intros k Hk. by apply r_live_insert_ne.
Qed.

Lemma call_key_rl_key call_id uid act : call_key call_id <> rl_key uid act.
Proof. unfold call_key, rl_key. simpl. intros H. discriminate H. Qed.

(** ** Calls: the snapshot refresh *)

Lemma refresh_db call_id upd ttl W :
  cw_db (snd (refresh_call_state call_id upd ttl W)) = cw_db W.
Proof.
  unfold refresh_call_state, read_call_state, write_call_state, state_or_empty,
    c_on_redis, bind, rcall, ret, raise, op_get, op_set_ex, r_with_store.
  repeat (case_match; simplify_eq/=); done.
Qed.


Lemma refresh_ok call_id upd ttl W :
  r_up (cw_redis W) = true -> cache_ok (cw_redis W) call_id = true -> (0 < ttl)%Z ->
  fst (refresh_call_state call_id upd ttl W) = inr tt.
Proof.
  intros Hup Hc Ht. destruct W as [[st up now pub] db]. simpl in Hup. subst up.
  unfold cache_ok in Hc.
  unfold refresh_call_state, read_call_state, write_call_state, state_or_empty,
    c_on_redis, bind, rcall, ret, raise, op_get, op_set_ex, r_with_store.
  cbn -[r_live call_key].
  destruct (Z.leb_spec ttl 0); [lia|].
  repeat (case_match; simplify_eq/=); done.
Qed.

Ltac refresh_step :=
  match goal with
  | |- context [refresh_call_state ?a ?b ?c ?d] =>
      let Hd := fresh "Hd" in
      pose proof (refresh_db a b c d) as Hd;
      destruct (refresh_call_state a b c d) as [[?e|[]] ?W3] eqn:?Er; simpl in Hd
  end.

Lemma r_live_with_store_ne (R : redis) s k :
  s !! k = r_store R !! k -> r_live (r_with_store R s) k = r_live R k.
Proof. intros H. unfold r_live, r_with_store. simpl. by rewrite H. Qed.

Lemma rate_limit_keeps limited own uid act limit w R k :
  k <> rl_key uid act ->
  r_live (snd (rate_limit_gen limited own uid act limit w R)) k = r_live R k /\
  r_now (snd (rate_limit_gen limited own uid act limit w R)) = r_now R /\
  r_up (snd (rate_limit_gen limited own uid act limit w R)) = r_up R.
Proof.
  intros Hk.
  unfold rate_limit_gen, catch, bind, rcall, ret, raise, op_incr, op_expire, op_ttl.
  fold (rl_key uid act).
  repeat (case_match; simplify_eq/=); repeat split;
    repeat (rewrite r_live_with_store_ne; [|simpl; rewrite ?lookup_insert_ne, ?lookup_delete_ne by congruence; try done]);
    try done.
  all: rewrite lookup_insert_ne; [done|intros Heq; apply Hk; by rewrite Heq].
Qed.

Lemma end_authorized actor c :
  (actor = c_caller c \/ actor = c_receiver c) ->
  (String.eqb actor (c_caller c) || String.eqb actor (c_receiver c)) = true.
Proof. intros [-> | ->]; rewrite String.eqb_refl; [done | apply orb_true_r]. Qed.

Lemma calls_limiter_keeps_snapshot uid act limit w R call_id :
  r_live (snd (calls_rate_limit uid act limit w R)) (call_key call_id) = r_live R (call_key call_id).
Proof. unfold calls_rate_limit. apply rate_limit_keeps, call_key_rl_key. Qed.

Lemma calls_limiter_passes uid act limit w R :
  (r_up R = false \/ limiter_room R (rl_key uid act) limit = true) ->
  (1 <= limit)%Z -> (0 < w)%Z ->
  fst (calls_rate_limit uid act limit w R) = inr tt.
Proof.
  intros [Hd|Hroom] Hl Hw.
  - unfold calls_rate_limit. by rewrite rate_limit_down.
  - destruct (bool_decide (r_up R = true)) eqn:Hb.
    + apply bool_decide_eq_true in Hb.
      destruct (calls_rate_limit_room uid act limit w R Hb Hl Hw Hroom) as (R' & -> & _).
      reflexivity.
    + apply bool_decide_eq_false in Hb. apply not_true_is_false in Hb.
      unfold calls_rate_limit. by rewrite rate_limit_down.
Qed.

(** [end_call] on an existing row not yet ended, by its caller or receiver.
    [now] is the aware [datetime.now(timezone.utc)]: for an answered row
    [now - call.answered_at] mixes it with the naive column value and
    raises [TypeError]; otherwise the commit binds the aware [ended_at] to
    the naive column and the driver rejects it. Past the limiter the
    request fails with 500 and only the limiter's step is left. *)
Lemma end_call_open uuid_parse actor call_id cid c W :
  uuid_parse call_id = Some cid -> cw_db W !! cid = Some c ->
  (actor = c_caller c \/ actor = c_receiver c) -> c_status c <> "ended" ->
  end_call uuid_parse actor call_id W =
    (match fst (calls_rate_limit actor "calls:end" 30 60 (cw_redis W)) with
     | inl e => inl e | inr _ => inl server_error end,
     mkCW (snd (calls_rate_limit actor "calls:end" 30 60 (cw_redis W))) (cw_db W)).
Proof.
  intros Hu Hc Hact Hs. destruct W as [R db]. simpl in Hc |- *.
  unfold end_call, bind at 1, c_on_redis at 1. cbn [cw_redis cw_db].
  destruct (calls_rate_limit actor "calls:end" 30 60 R) as [[e|[]] R1]; cbv beta iota zeta;
    [reflexivity|].
  rewrite Hu. unfold db_get, gets, bind at 1. cbn [cw_db]. rewrite Hc. cbv beta iota zeta.
  rewrite (end_authorized actor c Hact). cbn [negb].
  rewrite (proj2 (String.eqb_neq _ _) Hs). cbn [negb].
  unfold c_now_utc, gets, bind, of_sum, ret, raise. cbn [cw_redis].
  destruct (c_answered c); reflexivity.
Qed.

(** [end_call] on an ended row, by its caller or receiver: the table is
    left as it is, and a success returns the stored duration. *)
Lemma end_call_ended uuid_parse actor call_id cid c W :
  uuid_parse call_id = Some cid -> cw_db W !! cid = Some c ->
  (actor = c_caller c \/ actor = c_receiver c) -> c_status c = "ended" ->
  let '(r, W') := end_call uuid_parse actor call_id W in
  cw_db W' = cw_db W /\ forall v, r = inr v -> v = ("Call ended", c_duration c).
Proof.
  intros Hu Hc Hact Hs. destruct W as [R db]. simpl in Hc |- *.
  unfold end_call, bind at 1, c_on_redis at 1. cbn [cw_redis cw_db].
  destruct (calls_rate_limit actor "calls:end" 30 60 R) as [[e|[]] R1]; cbv beta iota zeta.
  - split; [done|]. intros v Hv; discriminate.
  - rewrite Hu. unfold db_get, gets, bind at 1. cbn [cw_db]. rewrite Hc. cbv beta iota zeta.
    rewrite (end_authorized actor c Hact), Hs, String.eqb_refl. cbn [negb].
    unfold bind, ret. cbv beta iota.
    refresh_step; cbv beta iota zeta.
    + split; [done|]. intros v Hv; discriminate.
    + split; [done|]. intros v Hv; congruence.
Qed.

(** With Redis reachable, room in the actor's [calls:end] window and a
    well-formed snapshot, [end_call] on an ended row succeeds. *)
Lemma end_call_ended_ok uuid_parse actor call_id cid c W :
  uuid_parse call_id = Some cid -> cw_db W !! cid = Some c ->
  (actor = c_caller c \/ actor = c_receiver c) -> c_status c = "ended" ->
  r_up (cw_redis W) = true -> limiter_room (cw_redis W) (rl_key actor "calls:end") 30 = true ->
  cache_ok (cw_redis W) call_id = true ->
  fst (end_call uuid_parse actor call_id W) = inr ("Call ended", c_duration c).
Proof.
  intros Hu Hc Hact Hs Hup Hroom Hcache. destruct W as [R db]. simpl in *.
  destruct (calls_rate_limit_room actor "calls:end" 30 60 R Hup ltac:(lia) ltac:(lia) Hroom)
    as (R1 & E & Hup1 & _ & Hk).
  unfold end_call, bind at 1, c_on_redis at 1. cbn [cw_redis cw_db]. rewrite E. cbv beta iota zeta.
  rewrite Hu. unfold db_get, gets, bind at 1. cbn [cw_db]. rewrite Hc. cbv beta iota zeta.
  rewrite (end_authorized actor c Hact), Hs, String.eqb_refl. cbn [negb].
  unfold bind, ret. cbv beta iota.
  match goal with
  | |- context [refresh_call_state ?a ?b ?t ?w] =>
      assert (Hok : fst (refresh_call_state a b t w) = inr tt);
      [ apply refresh_ok; simpl; [done| |lia];
        unfold cache_ok; rewrite Hk by apply call_key_rl_key; exact Hcache
      | destruct (refresh_call_state a b t w) as [r W3]; simpl in Hok; subst r; reflexivity ]
  end.
Qed.

(** [answer_call] on an existing row: past the limiter, a user other than
    the receiver gets 403 whatever the status, the receiver gets 409 on an
    ended call, and otherwise the commit binds the aware [answered_at] to
    the naive column and fails with 500. Only the limiter's step is left. *)
Lemma answer_call_result uuid_parse actor call_id cid c W :
  uuid_parse call_id = Some cid -> cw_db W !! cid = Some c ->
  answer_call uuid_parse actor call_id W =
    (match fst (calls_rate_limit actor "calls:answer" 30 60 (cw_redis W)) with
     | inl e => inl e
     | inr _ =>
         inl (if negb (String.eqb (c_receiver c) actor)
              then ExHTTP 403 "Only the receiver can answer the call"
              else if String.eqb (c_status c) "ended" then ExHTTP 409 "Call already ended"
              else server_error)
     end,
     mkCW (snd (calls_rate_limit actor "calls:answer" 30 60 (cw_redis W))) (cw_db W)).
Proof.
  intros Hu Hc. destruct W as [R db]. simpl in Hc |- *.
  unfold answer_call, bind at 1, c_on_redis at 1. cbn [cw_redis cw_db].
  destruct (calls_rate_limit actor "calls:answer" 30 60 R) as [[e|[]] R1]; cbv beta iota zeta;
    [reflexivity|].
  rewrite Hu. unfold db_get, gets, bind at 1. cbn [cw_db]. rewrite Hc. cbv beta iota zeta.
  destruct (negb (String.eqb (c_receiver c) actor)); [reflexivity|].
  destruct (String.eqb (c_status c) "ended"); [reflexivity|].
  unfold c_now_utc, gets, bind, of_sum, ret, raise. reflexivity.
Qed.

(** ** C4: ending a call *)

(** C4 (code bug). [end_call] by the caller or the receiver of a row [c]
    not yet ended never ends it: the request fails with 500 ([TypeError]
    from the aware [now] minus the naive [answered_at] when [c] was
    answered; the driver's rejection of the aware [ended_at] otherwise), or
    with 429 from the limiter, and the table and the snapshot are as they
    were. With Redis unreachable or room in the actor's [calls:end] window
    it is the 500. On a row already ended, [end_call] by either party
    leaves the table as it is, can only succeed with the stored duration,
    and does succeed when Redis is reachable, the window has room and the
    snapshot is well formed. *)
Theorem end_call_open_fails (uuid_parse : string -> option string) (actor call_id cid : string)
    (c : call_rec) (W : cworld) :
  uuid_parse call_id = Some cid -> cw_db W !! cid = Some c ->
  (actor = c_caller c \/ actor = c_receiver c) ->
  (c_status c <> "ended" ->
   let '(r, W') := end_call uuid_parse actor call_id W in
   cw_db W' = cw_db W /\
   r_live (cw_redis W') (call_key call_id) = r_live (cw_redis W) (call_key call_id) /\
   (r = inl server_error \/ exists d, r = inl (ExHTTP 429 d)) /\
   (r_up (cw_redis W) = false \/ limiter_room (cw_redis W) (rl_key actor "calls:end") 30 = true ->
    r = inl server_error)) /\
  (c_status c = "ended" ->
   let '(r, W') := end_call uuid_parse actor call_id W in
   cw_db W' = cw_db W /\ forall v, r = inr v -> v = ("Call ended", c_duration c)) /\
  (c_status c = "ended" -> r_up (cw_redis W) = true ->
   limiter_room (cw_redis W) (rl_key actor "calls:end") 30 = true ->
   cache_ok (cw_redis W) call_id = true ->
   fst (end_call uuid_parse actor call_id W) = inr ("Call ended", c_duration c)).
Proof.
  intros Hu Hc Hact. split; [|split].
  - intros Hs. rewrite (end_call_open uuid_parse actor call_id cid c W Hu Hc Hact Hs).
    pose proof (calls_rate_limit_result actor "calls:end" 30 60 (cw_redis W)) as [Hres _].
    pose proof (calls_limiter_passes actor "calls:end" 30 60 (cw_redis W)) as Hpass.
    split; [done|]. split; [apply calls_limiter_keeps_snapshot|]. split.
    + destruct Hres as [-> | [d ->]]; [by left|right; eauto].
    + intros Hcase. by rewrite (Hpass Hcase ltac:(lia) ltac:(lia)).
  - intros Hs. exact (end_call_ended uuid_parse actor call_id cid c W Hu Hc Hact Hs).
  - intros Hs. exact (end_call_ended_ok uuid_parse actor call_id cid c W Hu Hc Hact Hs).
Qed.

Lemma end_call_open_fails_witness :
  fst (end_call Some "a" "c2" (cworld_at true 9500)) = inl server_error /\
  cw_db (snd (end_call Some "a" "c2" (cworld_at true 9500))) = cw_db (cworld_at true 9500) /\
  fst (end_call Some "b" "c0" (cworld_at true 9500)) = inl server_error /\
  fst (end_call Some "a" "c1" (cworld_at true 9500)) = inr ("Call ended", c_duration call_c1).
Proof.
  destruct (end_call_open_fails Some "a" "c2" "c2" call_c2 (cworld_at true 9500) eq_refl eq_refl
              (or_introl eq_refl)) as [H2 _].
  destruct (end_call_open_fails Some "b" "c0" "c0" call_c0 (cworld_at true 9500) eq_refl eq_refl
              (or_intror eq_refl)) as [H0 _].
  destruct (end_call_open_fails Some "a" "c1" "c1" call_c1 (cworld_at true 9500) eq_refl eq_refl
              (or_introl eq_refl)) as (_ & _ & H1).
  specialize (H2 ltac:(discriminate)). specialize (H0 ltac:(discriminate)).
  destruct (end_call Some "a" "c2" (cworld_at true 9500)) as [r2 W2] eqn:E2.
  destruct (end_call Some "b" "c0" (cworld_at true 9500)) as [r0 W0] eqn:E0.
  destruct H2 as (Hdb2 & _ & _ & Hr2). destruct H0 as (_ & _ & _ & Hr0).
  split; [apply Hr2; right; vm_compute; reflexivity|].
  split; [exact Hdb2|].
  split; [apply Hr0; right; vm_compute; reflexivity|].
  apply H1; vm_compute; reflexivity.
Defined.

(** ** C9: answering a call *)

(** C9 (code bug). [answer_call] on an existing row [c] never answers it:
    unless the limiter refuses the request (429), a user other than the
    receiver gets 403 whatever the status, the receiver gets 409 when the
    call has ended, and the receiver of a call not ended gets 500, the
    driver rejecting the aware [answered_at] bound to the naive column. In
    every case the table and the snapshot are as they were. *)
Theorem answer_call_checks (uuid_parse : string -> option string) (actor call_id cid : string)
    (c : call_rec) (W : cworld) :
  uuid_parse call_id = Some cid -> cw_db W !! cid = Some c ->
  let '(r, W') := answer_call uuid_parse actor call_id W in
  cw_db W' = cw_db W /\
  r_live (cw_redis W') (call_key call_id) = r_live (cw_redis W) (call_key call_id) /\
  ((exists d, r = inl (ExHTTP 429 d)) \/
   (c_receiver c <> actor /\ r = inl (ExHTTP 403 "Only the receiver can answer the call")) \/
   (c_receiver c = actor /\ c_status c = "ended" /\ r = inl (ExHTTP 409 "Call already ended")) \/
   (c_receiver c = actor /\ c_status c <> "ended" /\ r = inl server_error)).
Proof.
  intros Hu Hc. rewrite (answer_call_result uuid_parse actor call_id cid c W Hu Hc).
  pose proof (calls_rate_limit_result actor "calls:answer" 30 60 (cw_redis W)) as [Hres _].
  split; [done|]. split; [apply calls_limiter_keeps_snapshot|].
  destruct Hres as [-> | [d ->]]; [|left; eauto].
  right. destruct (String.eqb_spec (c_receiver c) actor) as [Hr|Hr]; cbn [negb].
  - right. destruct (String.eqb_spec (c_status c) "ended") as [Hs|Hs]; [left|right]; done.
  - left. done.
Qed.

Lemma answer_call_checks_witness :
  (let '(r, W') := answer_call Some "b" "c0" (cworld_at true 9000) in
   cw_db W' = cw_db (cworld_at true 9000) /\
   r_live (cw_redis W') (call_key "c0") = r_live (cw_redis (cworld_at true 9000)) (call_key "c0") /\
   ((exists d, r = inl (ExHTTP 429 d)) \/
    (c_receiver call_c0 <> "b" /\ r = inl (ExHTTP 403 "Only the receiver can answer the call")) \/
    (c_receiver call_c0 = "b" /\ c_status call_c0 = "ended" /\ r = inl (ExHTTP 409 "Call already ended")) \/
    (c_receiver call_c0 = "b" /\ c_status call_c0 <> "ended" /\ r = inl server_error))) /\
  fst (answer_call Some "b" "c0" (cworld_at true 9000)) = inl server_error.
Proof.
  split; [exact (answer_call_checks Some "b" "c0" "c0" call_c0 (cworld_at true 9000) eq_refl eq_refl)|].
  vm_compute. reflexivity.
Defined.

(** ** C5: durable write, then snapshot *)




(** ** Extra: registry round trip *)

(** Registering a socket and then unregistering it gives back the registry
    it started from, when the socket was not registered for that user and
    no user maps to an empty set. *)
Theorem connect_disconnect_roundtrip (uid : string) (ws : nat) (reg : gmap string (gset nat)) :
  reg_wf reg -> ws ∉ default ∅ (reg !! uid) ->
  disconnect uid ws (connect uid ws reg) = reg.
Proof.
  intros Hwf Hn. unfold connect, disconnect. rewrite lookup_insert_eq.
  rewrite bool_decide_eq_false_2 by set_solver.
  rewrite bool_decide_eq_true_2 by set_solver.
  destruct (reg !! uid) as [S|] eqn:HS; simpl in Hn |- *.
  - assert (HSe : ({[ws]} ∪ S) ∖ {[ws]} = S) by (apply set_eq; set_solver).
    rewrite HSe, bool_decide_eq_false_2 by (apply (Hwf uid); done).
    rewrite insert_insert_eq. by apply insert_id.
  - assert (HSe : ({[ws]} ∪ ∅) ∖ {[ws]} = (∅ : gset nat)) by (apply set_eq; set_solver).
    rewrite HSe, bool_decide_eq_true_2 by done.
    rewrite delete_insert_eq. by apply delete_id.
Qed.

Lemma connect_disconnect_roundtrip_witness :
  let reg := {[ "u" := ({[1%nat]} : gset nat) ]} : gmap string (gset nat) in
  disconnect "u" 2 (connect "u" 2 reg) = reg.
Proof.
  apply connect_disconnect_roundtrip.
  - intros u S H. apply lookup_singleton_Some in H as [_ <-]. set_solver.
  - simpl. set_solver.
Defined.

(** ** Extra: the limiter fails open *)

(** Both limiters let the action through, leaving Redis as it was, when
    Redis is unreachable or when the counter key holds a value that is
    neither an integer nor the text of one (INCR fails). *)
Theorem rate_limit_fail_open (uid act : string) (limit w : Z) (R : redis) :
  (r_up R = false \/
   (r_up R = true /\ exists v e, r_live R (rl_key uid act) = Some (mkEntry v e) /\
                                 (forall n, v <> RInt n) /\ (forall n, v <> RStr (JNum n)))) ->
  ws_rate_limit uid act limit w R = (inr tt, R) /\
  calls_rate_limit uid act limit w R = (inr tt, R).
Proof.
  intros [Hd | [Hup (v & e & Hl & Hv & Hs)]].
  - split; [unfold ws_rate_limit | unfold calls_rate_limit]; by apply rate_limit_down.
  - unfold rl_key in Hl.
    split; unfold ws_rate_limit, calls_rate_limit, rate_limit_gen, catch, bind, rcall, op_incr;
      rewrite Hup, Hl; destruct v as [n|[]|]; try (exfalso; by apply (Hv n));
      try (exfalso; by eapply Hs); reflexivity.
Qed.

Lemma rate_limit_fail_open_witness :
  let R := mkRedis {[ "rl:u:ws:ping" := mkEntry (RStr (JStr "x")) None ]} true 0 [] in
  ws_rate_limit "u" "ws:ping" 30 30 R = (inr tt, R) /\
  calls_rate_limit "u" "ws:ping" 30 30 R = (inr tt, R).
Proof.
  apply rate_limit_fail_open. right. split; [reflexivity|].
  exists (RStr (JStr "x")), None.
  split; [vm_compute; reflexivity | split; intros n; discriminate].
Defined.

(** ** Extra: one-time passwords *)

Lemma append_cons c (s t : string) : String c s +:+ t = String c (s +:+ t).
Proof. reflexivity. Qed.

Lemma append_empty_l (t : string) : "" +:+ t = t.
Proof. reflexivity. Qed.

Lemma append_nil_r (s : string) : s +:+ "" = s.
Proof. induction s as [|c s IH]; [reflexivity|]. rewrite append_cons, IH. reflexivity. Qed.

Lemma join_empty_sep (l : list string) : join "" l = fold_right String.append "" l.
Proof.
  induction l as [|s l IH]; [done|].
  destruct l as [|s' l']; simpl; [by rewrite append_nil_r|].
  simpl in IH. by rewrite IH.
Qed.

Lemma pretty_digit (d : Z) : (0 <= d < 10)%Z ->
  pretty d = String (Ascii.ascii_of_nat (48 + Z.to_nat d)) "".
Proof.
  intros Hd.
  assert (d = 0 \/ d = 1 \/ d = 2 \/ d = 3 \/ d = 4 \/ d = 5 \/ d = 6 \/ d = 7 \/ d = 8 \/ d = 9)%Z
    as Hc by lia.
  repeat destruct Hc as [-> | Hc]; try (subst d); vm_compute; reflexivity.
Qed.

Lemma digits_text (l : list Z) :
  Forall (fun d => 0 <= d < 10)%Z l ->
  String.length (fold_right String.append "" (map pretty l)) = length l /\
  Forall is_digit (String.list_ascii_of_string (fold_right String.append "" (map pretty l))).
Proof.
  induction 1 as [|d l Hd Hl [IHl IHd]]; [split; [done|constructor]|].
  cbn [map fold_right]. rewrite (pretty_digit _ Hd), append_cons.
  cbn [String.length String.list_ascii_of_string length]. rewrite append_empty_l.
  split; [by rewrite IHl|]. constructor; [|exact IHd].
  unfold is_digit. rewrite Ascii.nat_ascii_embedding by lia. lia.
Qed.

(** [generate_otp(length)] is a text of exactly [length] characters (none
    when [length] is not positive), each a decimal digit. *)
Theorem generate_otp_digits (randbelow : nat -> Z) (length : Z) :
  (forall i, 0 <= randbelow i < 10)%Z ->
  String.length (generate_otp randbelow length) = Z.to_nat length /\
  Forall is_digit (String.list_ascii_of_string (generate_otp randbelow length)).
Proof.
  intros Hr. unfold generate_otp. rewrite join_empty_sep.
  rewrite <- (map_map randbelow pretty).
  destruct (digits_text (map randbelow (seq 0 (Z.to_nat length)))) as [Hl Hd].
  { apply Forall_forall. intros d Hin. apply list_elem_of_In, in_map_iff in Hin as (i & <- & _). apply Hr. }
  split; [|exact Hd]. by rewrite Hl, length_map, length_seq.
Qed.

Lemma generate_otp_digits_witness :
  String.length (generate_otp (fun i => Z.of_nat (i mod 10)) 6) = 6%nat /\
  Forall is_digit (String.list_ascii_of_string (generate_otp (fun i => Z.of_nat (i mod 10)) 6)).
Proof.
  apply (generate_otp_digits (fun i => Z.of_nat (i mod 10)) 6).
  intros i. pose proof (Nat.mod_upper_bound i 10 ltac:(lia)). lia.
Defined.

(** ** Extra: issued tokens and [verify_token] *)

Lemma dget_dset kv k v k' :
  dget (dset kv k v) k' = if String.eqb k' k then Some v else dget kv k'.
Proof.
  induction kv as [|[k0 v0] kv IH]; simpl; [done|].
  destruct (String.eqb_spec k k0) as [->|Hne]; simpl; [by destruct (String.eqb k' k0)|].
  rewrite IH. destruct (String.eqb_spec k' k0) as [->|]; [|done].
  rewrite (proj2 (String.eqb_neq k0 k)) by congruence. done.
Qed.

Lemma dget_issued data e t k :
  dget (dupdate data [("exp", JNum e); ("type", JStr t)]) k =
  if String.eqb k "type" then Some (JStr t)
  else if String.eqb k "exp" then Some (JNum e) else dget data k.
Proof. unfold dupdate. simpl. by rewrite !dget_dset. Qed.

(** With a decoder that gives back the signed claims (a valid, unexpired
    token), an access token passes [verify_token] as [access] and not as
    [refresh], a refresh token the other way round, whatever [type] key the
    claims [data] carried; the verified payload has [type] and [exp] set by
    the issuer and every other claim of [data]. *)
Theorem issued_tokens_verify (jwt_encode : list (string * json) -> string)
    (jwt_decode : string -> option (list (string * json)))
    (now_s minutes days : Z) (data : list (string * json)) :
  (forall p, jwt_decode (jwt_encode p) = Some p) ->
  let a := create_access_token jwt_encode now_s minutes data in
  let r := create_refresh_token jwt_encode now_s days data in
  (exists p, verify_token jwt_decode a "access" = Some p /\
             dget p "type" = Some (JStr "access") /\
             dget p "exp" = Some (JNum (now_s + 60 * minutes)) /\
             forall k, k <> "type" -> k <> "exp" -> dget p k = dget data k) /\
  verify_token jwt_decode a "refresh" = None /\
  (exists p, verify_token jwt_decode r "refresh" = Some p /\
             dget p "type" = Some (JStr "refresh") /\
             dget p "exp" = Some (JNum (now_s + 86400 * days)) /\
             forall k, k <> "type" -> k <> "exp" -> dget p k = dget data k) /\
  verify_token jwt_decode r "access" = None.
Proof.
  intros Hrt. cbv zeta. unfold create_access_token, create_refresh_token, verify_token.
  rewrite !Hrt, !dget_issued. cbv [String.eqb Ascii.eqb Bool.eqb andb].
  split; [|split; [|split]].
  - eexists. split; [reflexivity|]. rewrite !dget_issued. cbv [String.eqb Ascii.eqb Bool.eqb andb].
    split; [done|split; [done|]]. intros k Hk He.
    rewrite dget_issued, (proj2 (String.eqb_neq _ _) Hk), (proj2 (String.eqb_neq _ _) He). done.
  - done.
  - eexists. split; [reflexivity|]. rewrite !dget_issued. cbv [String.eqb Ascii.eqb Bool.eqb andb].
    split; [done|split; [done|]]. intros k Hk He.
    rewrite dget_issued, (proj2 (String.eqb_neq _ _) Hk), (proj2 (String.eqb_neq _ _) He). done.
  - done.
Qed.

Lemma json_of_to_tree j : json_of_tree (json_to_tree j) = j.
Proof.
  revert j. fix IH 1. intros [| b | z | s | l | kv]; simpl; try done.
  - f_equal. induction l as [|x l IHl]; simpl; [done|]. by rewrite IH, IHl.
  - f_equal. induction kv as [|[k v] kv IHkv]; simpl; [done|]. by rewrite IH, IHkv.
Qed.

Lemma text_pos_text p : text_pos (pos_text p) = p.
Proof. induction p as [p IH|p IH|]; simpl; [rewrite IH|rewrite IH|]; reflexivity. Qed.

Lemma jwt_demo_roundtrip p : jwt_decode_demo (jwt_encode_demo p) = Some p.
Proof.
  unfold jwt_decode_demo, jwt_encode_demo. rewrite text_pos_text, decode_encode.
  by rewrite json_of_to_tree.
Qed.

Lemma issued_tokens_verify_witness :
  verify_token jwt_decode_demo
    (create_access_token jwt_encode_demo 0 15 [("sub", JStr "u"); ("type", JStr "refresh")])
    "refresh" = None.
Proof.
  destruct (issued_tokens_verify jwt_encode_demo jwt_decode_demo 0 15 7
              [("sub", JStr "u"); ("type", JStr "refresh")] jwt_demo_roundtrip)
    as (_ & H & _). exact H.
Defined.

(** ** Extra: the router of calls.py *)

(** No GET request reaches [get_call_history]: the parameter route
    [/{call_id}], declared before [/history], takes every one-segment path,
    so [GET /api/v1/calls/history] is served by [get_call_status]. *)
Theorem call_history_unreachable :
  (forall path, route_calls "GET" path <> Some "get_call_history") /\
  route_calls "GET" ["history"] = Some "get_call_status".
Proof.
  split; [|reflexivity].
  intros path. unfold route_calls, calls_routes.
  destruct path as [|x [|y path]]; cbn [List.find segs_match];
    rewrite ?String.eqb_refl, ?andb_false_r; cbn [andb]; [discriminate| |].
  2:{ change (String.eqb "POST" "GET") with false. cbn [andb]. discriminate. }
  change (String.eqb "POST" "GET") with false. cbn [andb].
  destruct (String.eqb "turn-credentials" x); cbn [andb]; [discriminate|].
  destruct (String.eqb_spec x "") as [->|_]; cbn [andb negb]; [|discriminate].
  change (String.eqb "history" "") with false. cbn [andb]. discriminate.
Qed.

(** ** Extra: the registry only shrinks while frames are handled *)

Lemma disconnect_shrinks u ws (reg : gmap string (gset nat)) v :
  default ∅ (disconnect u ws reg !! v) ⊆ default ∅ (reg !! v).
Proof.
  unfold disconnect. destruct (reg !! u) as [S|] eqn:HS; [|done].
  case_bool_decide; [done|]. case_bool_decide; [|done]. case_bool_decide.
  - rewrite lookup_delete. case_decide; [set_solver|done].
  - rewrite lookup_insert. case_decide; [subst; rewrite HS; simpl; set_solver|done].
Qed.

Lemma send_each_shrinks dead u data l : forall (reg : gmap string (gset nat)) v,
  default ∅ (fst (send_each dead u data l reg) !! v) ⊆ default ∅ (reg !! v).
Proof.
  induction l as [|ws l IH]; intros reg v; [done|]. simpl.
  case_bool_decide.
  - destruct (send_each dead u data l (disconnect u ws reg)) as [r2 evs] eqn:E. simpl.
    pose proof (IH (disconnect u ws reg) v) as Hi. rewrite E in Hi. simpl in Hi.
    etrans; [exact Hi|apply disconnect_shrinks].
  - destruct (send_each dead u data l reg) as [r2 evs] eqn:E. simpl.
    pose proof (IH reg v) as Hi. rewrite E in Hi. exact Hi.
Qed.

Lemma send_to_user_shrinks dumps dead u msg (reg : gmap string (gset nat)) v :
  default ∅ (fst (send_to_user dumps dead u msg reg) !! v) ⊆ default ∅ (reg !! v).
Proof.
  unfold send_to_user. case_bool_decide; [done|]. apply send_each_shrinks.
Qed.

Section Preserves.
Variable P : wsworld -> wsworld -> Prop.
Hypothesis P_refl : forall w, P w w.
Hypothesis P_trans : forall a b c, P a b -> P b c -> P a c.

Lemma preserves_ret {A} (a : A) : preserves P (ret a).
Proof. intros w. apply P_refl. Qed.

Lemma preserves_raise {A} e : preserves P (A:=A) (raise e).
Proof. intros w. apply P_refl. Qed.

Lemma preserves_bind {A B} (m : M wsworld A) (k : A -> M wsworld B) :
  preserves P m -> (forall a, preserves P (k a)) -> preserves P (bind m k).
Proof.
  intros Hm Hk w. unfold bind. specialize (Hm w).
  destruct (m w) as [[e|a] w1]; simpl in *; [done|]. eapply P_trans; [exact Hm|apply Hk].
Qed.

Lemma preserves_catch {A} (m : M wsworld A) (h : exc -> M wsworld A) :
  preserves P m -> (forall e, preserves P (h e)) -> preserves P (catch m h).
Proof.
  intros Hm Hh w. unfold catch. specialize (Hm w).
  destruct (m w) as [[e|a] w1]; simpl in *; [|done]. eapply P_trans; [exact Hm|apply Hh].
Qed.

End Preserves.

Lemma inner_refl w : inner_step w w.
Proof. repeat split. intros u. done. Qed.

Lemma inner_trans a b c : inner_step a b -> inner_step b c -> inner_step a c.
Proof.
  intros (H1 & H2 & H3 & H4) (G1 & G2 & G3 & G4).
  repeat split; try congruence. intros u. etrans; [apply G1|apply H1].
Qed.

Lemma inner_bind {A B} (m : M wsworld A) (k : A -> M wsworld B) :
  preserves inner_step m -> (forall a, preserves inner_step (k a)) ->
  preserves inner_step (bind m k).
Proof. apply preserves_bind, inner_trans. Qed.

Lemma inner_catch {A} (m : M wsworld A) (h : exc -> M wsworld A) :
  preserves inner_step m -> (forall e, preserves inner_step (h e)) ->
  preserves inner_step (catch m h).
Proof. apply preserves_catch, inner_trans. Qed.

Lemma inner_ret {A} (a : A) : preserves inner_step (ret a).
Proof. apply preserves_ret, inner_refl. Qed.

Lemma inner_raise {A} e : preserves inner_step (A:=A) (raise e).
Proof. apply preserves_raise, inner_refl. Qed.

Lemma inner_on_redis {A} (m : M redis A) : preserves inner_step (on_redis m).
Proof. intros w. unfold on_redis. destruct (m (ws_redis w)). simpl. repeat split. intros u. done. Qed.

Lemma inner_send dumps u msg : preserves inner_step (mgr_send_to_user dumps u msg).
Proof.
  intros w. unfold mgr_send_to_user.
  pose proof (send_to_user_shrinks dumps (ws_dead w) u msg (ws_reg w)) as H.
  destruct (send_to_user dumps (ws_dead w) u msg (ws_reg w)) as [reg' evs]. simpl in *.
  repeat split. exact H.
Qed.

Lemma inner_disconnect u ws : preserves inner_step (mgr_disconnect u ws).
Proof. intros w. repeat split. intros v. apply disconnect_shrinks. Qed.

Lemma inner_set_clock t : preserves inner_step (set_clock t).
Proof. intros w. simpl. repeat split. intros u. done. Qed.

Lemma inner_publish ch data : preserves inner_step (publish_best_effort ch data).
Proof. apply inner_catch; [apply inner_on_redis|intros; apply inner_ret]. Qed.

Lemma inner_get_redis : preserves inner_step get_redis.
Proof.
  intros w. unfold get_redis.
  destruct (ws_client w), (r_up (ws_redis w)); simpl; (split; [intros u; simpl; set_solver|done]).
Qed.

Ltac inner_auto :=
  repeat first
    [ apply inner_bind; [|intros ?]
    | apply inner_catch; [|intros ?]
    | apply inner_ret | apply inner_raise | apply inner_on_redis | apply inner_send
    | apply inner_disconnect | apply inner_set_clock | apply inner_publish
    | apply inner_get_redis
    | progress cbv beta zeta
    | match goal with
      | |- preserves _ (if ?b then _ else _) => destruct b
      | |- preserves _ (match ?x with _ => _ end) => destruct x
      end ].

Lemma inner_handle dumps uid data : preserves inner_step (handle_client_event dumps uid data).
Proof. unfold handle_client_event. inner_auto. Qed.

Lemma inner_recv_loop dumps loads uid frames : preserves inner_step (recv_loop dumps loads uid frames).
Proof.
  induction frames as [|[t incoming] frames IH]; cbn [recv_loop]; inner_auto.
  - apply inner_handle.
  - exact IH.
Qed.

Lemma inner_validate jwt_decode token : preserves inner_step (validate_token_and_blacklist jwt_decode token).
Proof. unfold validate_token_and_blacklist. inner_auto. Qed.

(** ** Extra: a socket never stays registered once the endpoint returns *)

Lemma reg_le_refl w : reg_le w w.
Proof. intros u. done. Qed.

Lemma reg_le_trans a b c : reg_le a b -> reg_le b c -> reg_le a c.
Proof. intros H1 H2 u. etrans; [apply H2|apply H1]. Qed.

Lemma inner_reg_le {A} (m : M wsworld A) : preserves inner_step m -> preserves reg_le m.
Proof. intros H w. apply H. Qed.

Lemma close_reg_le ws code : preserves reg_le (ws_close ws code).
Proof. intros w u. unfold ws_close, modify. simpl. done. Qed.

Lemma subscribe_reg_le u : preserves reg_le (subscribe_user_channels u).
Proof.
  unfold subscribe_user_channels.
  apply (preserves_bind reg_le reg_le_trans);
    [apply inner_reg_le, inner_on_redis|intros _ w v; unfold modify; simpl; done].
Qed.

Lemma disconnect_removes u ws (reg : gmap string (gset nat)) :
  ws ∉ default ∅ (disconnect u ws reg !! u).
Proof.
  unfold disconnect. destruct (reg !! u) as [S|] eqn:HS; [|rewrite HS; simpl; set_solver].
  case_bool_decide as H0; [rewrite HS; simpl; set_solver|].
  case_bool_decide as H1; [|rewrite HS; done].
  case_bool_decide.
  - rewrite lookup_delete_eq. simpl. set_solver.
  - rewrite lookup_insert_eq. simpl. set_solver.
Qed.

Lemma final_disconnect u ws (reg0 reg1 : gmap string (gset nat)) :
  (forall v, ws ∉ default ∅ (reg0 !! v)) ->
  (forall v, default ∅ (reg1 !! v) ⊆ default ∅ (connect u ws reg0 !! v)) ->
  forall v, ws ∉ default ∅ (disconnect u ws reg1 !! v).
Proof.
  intros H0 H1 v. destruct (decide (v = u)) as [->|Hne]; [apply disconnect_removes|].
  intros Hin. apply disconnect_shrinks, H1 in Hin.
  unfold connect in Hin. rewrite lookup_insert_ne in Hin by congruence. by apply (H0 v).
Qed.

Lemma then_true_ok (m : M wsworld unit) w : fst ((m ;;; ret true) w) <> inr false.
Proof. unfold bind. destruct (m w) as [[e|[]] w1]; simpl; congruence. Qed.

Lemma catch_unit_ok (m : M wsworld unit) w : fst (catch m (fun _ => ret tt) w) = inr tt.
Proof. unfold catch. destruct (m w) as [[e|[]] w1]; reflexivity. Qed.

(** Whatever the token, the frames and the state of Redis, a socket that
    was registered under no user is registered under none when
    [websocket_endpoint] returns: refused sockets are never registered,
    admitted ones are removed by the [finally] clause, also when the
    subscription fails (Redis gone after the module's client was assigned:
    the socket is closed with 1011) or a frame raises. *)
Theorem endpoint_leaves_no_registration (dumps : json -> string) (loads : string -> option json)
    (jwt_decode : string -> option (list (string * json))) (token : string) (ws : nat)
    (frames : list (Z * string)) (W : wsworld) :
  (forall u, ws ∉ default ∅ (ws_reg W !! u)) ->
  forall u, ws ∉ default ∅ (ws_reg (snd (websocket_endpoint dumps loads jwt_decode token ws frames W)) !! u).
Proof.
  intros Hfresh. unfold websocket_endpoint, bind at 1.
  match goal with |- context [catch ?A ?H W] =>
    assert (HA : reg_le W (snd (catch A H W)));
    [ apply (preserves_catch reg_le reg_le_trans);
      [ apply inner_reg_le; inner_auto; apply inner_validate
      | intros e; apply (preserves_bind reg_le reg_le_trans);
        [apply close_reg_le | intros _ w; apply reg_le_refl] ]
    | destruct (catch A H W) as [[e|[payload|]] W1] eqn:EA ] end;
    simpl in HA; cbv beta iota;
    try (intros u Hin; apply HA in Hin; by apply (Hfresh u)).
  assert (Hfresh1 : forall v, ws ∉ default ∅ (ws_reg W1 !! v))
    by (intros v Hin; apply HA in Hin; by apply (Hfresh v)).
  destruct (String.eqb (get_str_or_empty payload "sub") "").
  { exact Hfresh1. }
  set (uid := get_str_or_empty payload "sub").
  unfold bind at 1, mgr_connect at 1, modify at 1. cbv beta iota.
  set (W2 := mkWs (ws_redis W1) (connect uid ws (ws_reg W1)) (ws_dead W1) (ws_sent W1)
                  (ws_accepted W1 ++ [ws]) (ws_closed W1) (ws_subs W1) (ws_client W1)).
  assert (Hsub : reg_le W2 (snd ((subscribe_user_channels uid ;;; ret true) W2)))
    by (apply (preserves_bind reg_le reg_le_trans);
        [apply subscribe_reg_le|intros _ w; apply reg_le_refl]).
  pose proof (then_true_ok (subscribe_user_channels uid) W2) as Htrue.
  unfold bind at 1, catch at 1.
  destruct ((subscribe_user_channels uid ;;; ret true) W2) as [[e3|[]] W3] eqn:E3;
    simpl in Hsub, Htrue; [|cbv beta iota | congruence].
  - (* the subscription failed: close, then disconnect *)
    unfold bind, ws_close, mgr_disconnect, modify, ret. simpl.
    apply (final_disconnect uid ws (ws_reg W1)); [exact Hfresh1|exact Hsub].
  - pose proof (catch_unit_ok (recv_loop dumps loads uid frames) W3) as Hok.
    pose proof (inner_catch (recv_loop dumps loads uid frames) (fun _ => ret tt)
                  (inner_recv_loop dumps loads uid frames) (fun _ => inner_ret tt) W3) as [Hl _].
    unfold bind.
    destruct (catch (recv_loop dumps loads uid frames) (fun _ => ret tt) W3) as [r4 W4];
      simpl in Hok, Hl; subst r4.
    unfold mgr_disconnect, modify. simpl.
    apply (final_disconnect uid ws (ws_reg W1)); [exact Hfresh1|].
    intros v. etrans; [apply Hl|apply Hsub].
Qed.

Lemma endpoint_leaves_no_registration_witness :
  let W := mkWs (mkRedis ∅ false 0 []) ∅ ∅ [] [] [] [] true in
  let W' := snd (websocket_endpoint dumps_demo loads_demo jwt_demo "tok-u" 7 [(0%Z, ping_text)] W) in
  (7%nat ∉ default ∅ (ws_reg W' !! "u")) /\
  ws_accepted W' = [7%nat] /\ ws_closed W' = [(7%nat, 1011%Z)] /\ ws_subs W' = [].
Proof.
  cbv zeta. split.
  - apply endpoint_leaves_no_registration. intros u. simpl. rewrite lookup_empty. simpl. set_solver.
  - vm_compute. repeat split.
Defined.

(** ** Extra: a frame that is JSON but not an object ends the loop *)

Lemma bind_ext {W A B} (m : M W A) (k1 k2 : A -> M W B) w :
  (forall a w', k1 a w' = k2 a w') -> bind m k1 w = bind m k2 w.
Proof. intros H. unfold bind. destruct (m w) as [[e|a] w1]; [reflexivity|apply H]. Qed.

(** The receive loop stops at the first frame that decodes to a JSON value
    other than an object ([data.get] raises): what follows that frame is
    never read. *)
Theorem recv_loop_stops_at_non_object (dumps : json -> string) (loads : string -> option json)
    (uid : string) (pre : list (Z * string)) (t : Z) (incoming : string)
    (rest rest' : list (Z * string)) (W : wsworld) :
  (exists v, loads incoming = Some v /\ forall kv, v <> JObj kv) ->
  recv_loop dumps loads uid (pre ++ (t, incoming) :: rest) W =
  recv_loop dumps loads uid (pre ++ (t, incoming) :: rest') W.
Proof.
  intros (v & Hv & Hobj). revert W.
  induction pre as [|[t0 inc0] pre IH]; intros W; cbn [app recv_loop];
    apply bind_ext; intros [] W1; apply bind_ext; intros [] W2.
  - unfold bind, handle_client_event, parse_frame. rewrite Hv.
    destruct v; try reflexivity. exfalso. by apply (Hobj kv).
  - apply bind_ext. intros [] W3. apply IH.
Qed.

Lemma recv_loop_stops_at_non_object_witness :
  let loads := fun s => if String.eqb s "[1]" then Some (JArr [JNum 1]) else loads_demo s in
  recv_loop dumps_demo loads "u" [(0%Z, ping_text); (1%Z, "[1]"); (2%Z, ping_text)] world0 =
  recv_loop dumps_demo loads "u" [(0%Z, ping_text); (1%Z, "[1]")] world0.
Proof.
  apply (recv_loop_stops_at_non_object _ _ "u" [(0%Z, ping_text)] 1 "[1]" [(2%Z, ping_text)] []).
  exists (JArr [JNum 1]). split; [reflexivity|discriminate].
Defined.

(** ** Extra: a freshly issued access token opens a socket *)

Lemma bind_inr {W A B} (m : M W A) (k : A -> M W B) w a w' :
  m w = (inr a, w') -> bind m k w = k a w'.
Proof. intros H. unfold bind. by rewrite H. Qed.

Lemma catch_inr {W A} (m : M W A) h w a w' :
  m w = (inr a, w') -> catch m h w = (inr a, w').
Proof. intros H. unfold catch. by rewrite H. Qed.

(** With a decoder that gives back the signed claims, an access token
    issued by [create_access_token] for claims whose [sub] is a non-empty
    string [u] and whose [jti] is absent or falsy is accepted by
    [websocket_endpoint] while Redis is reachable: the socket is accepted,
    never closed by the server, and the five channel patterns of [u] are
    subscribed, whatever frames follow. *)
Theorem issued_token_admitted (dumps : json -> string) (loads : string -> option json)
    (jwt_encode : list (string * json) -> string)
    (jwt_decode : string -> option (list (string * json)))
    (now_s minutes : Z) (data : list (string * json)) (u : string) (ws : nat)
    (frames : list (Z * string)) (W : wsworld) :
  (forall p, jwt_decode (jwt_encode p) = Some p) ->
  dget data "sub" = Some (JStr u) -> u <> "" ->
  py_truthy (get_or_null data "jti") = false ->
  r_up (ws_redis W) = true ->
  let W' := snd (websocket_endpoint dumps loads jwt_decode
                   (create_access_token jwt_encode now_s minutes data) ws frames W) in
  ws_accepted W' = ws_accepted W ++ [ws] /\ ws_closed W' = ws_closed W /\
  ws_subs W' = ws_subs W ++ [(u, subscribe_patterns u)].
Proof.
  intros Hrt Hsub Hu Hjti Hup. cbv zeta.
  set (p := dupdate data [("exp", JNum (now_s + 60 * minutes)); ("type", JStr "access")]).
  set (W0 := with_client W).
  assert (Hval : validate_token_and_blacklist jwt_decode
                   (create_access_token jwt_encode now_s minutes data) W0 = (inr p, W0)).
  { unfold validate_token_and_blacklist, verify_token, create_access_token.
    fold p. rewrite Hrt. unfold p at 1. rewrite dget_issued, String.eqb_refl.
    change (String.eqb "access" "access") with true. cbv iota.
    unfold get_or_null at 1. unfold p. rewrite dget_issued.
    change (String.eqb "jti" "type") with false. change (String.eqb "jti" "exp") with false.
    cbv iota. unfold get_or_null in Hjti. rewrite Hjti. reflexivity. }
  assert (Hpre : get_redis W = (inr tt, W0)).
  { unfold get_redis, W0. destruct (ws_client W) eqn:Hc; [by rewrite with_client_id|by rewrite Hup]. }
  match goal with |- context [snd (websocket_endpoint ?a ?b ?c ?d ?e ?f ?g)] =>
    remember (websocket_endpoint a b c d e f g) as res eqn:Hres end.
  unfold websocket_endpoint in Hres.
  erewrite bind_inr in Hres; [|apply catch_inr; erewrite bind_inr; [|exact Hpre];
                       erewrite bind_inr; [|exact Hval]; reflexivity].
  cbv beta iota in Hres.
  assert (Hget : get_str_or_empty p "sub" = u).
  { unfold get_str_or_empty, p. rewrite dget_issued.
    change (String.eqb "sub" "type") with false. change (String.eqb "sub" "exp") with false.
    cbv iota. rewrite Hsub. simpl. rewrite (proj2 (String.eqb_neq u "") Hu). reflexivity. }
  rewrite Hget, (proj2 (String.eqb_neq u "") Hu) in Hres.
  unfold bind at 1, mgr_connect at 1, modify at 1 in Hres. cbv beta iota in Hres.
  set (W2 := mkWs (ws_redis W0) (connect u ws (ws_reg W0)) (ws_dead W0) (ws_sent W0)
                  (ws_accepted W0 ++ [ws]) (ws_closed W0) (ws_subs W0) (ws_client W0)).
  set (W3 := mkWs (ws_redis W0) (connect u ws (ws_reg W0)) (ws_dead W0) (ws_sent W0)
                  (ws_accepted W0 ++ [ws]) (ws_closed W0)
                  (ws_subs W0 ++ [(u, subscribe_patterns u)]) (ws_client W0)).
  assert (Hs : (subscribe_user_channels u ;;; ret true) W2 = (inr true, W3)).
  { unfold subscribe_user_channels, bind, on_redis, rcall, modify, ret.
    simpl. rewrite Hup. reflexivity. }
  erewrite bind_inr in Hres; [|apply catch_inr; exact Hs]. cbv beta iota in Hres.
  pose proof (catch_unit_ok (recv_loop dumps loads u frames) W3) as Hok.
  pose proof (inner_catch (recv_loop dumps loads u frames) (fun _ => ret tt)
                (inner_recv_loop dumps loads u frames) (fun _ => inner_ret tt) W3)
    as (_ & Ha & Hc & Hsb).
  unfold bind in Hres.
  destruct (catch (recv_loop dumps loads u frames) (fun _ => ret tt) W3) as [r4 W4];
    simpl in Hok, Ha, Hc, Hsb; subst r4 res.
  unfold mgr_disconnect, modify. simpl. rewrite <- Ha, <- Hc, <- Hsb. done.
Qed.

Lemma issued_token_admitted_witness :
  let W' := snd (websocket_endpoint dumps_demo loads_demo jwt_decode_demo
                   (create_access_token jwt_encode_demo 0 15 [("sub", JStr "u")]) 7
                   [(0%Z, ping_text)] world0) in
  ws_accepted W' = [7%nat] /\ ws_closed W' = [] /\ ws_subs W' = [("u", subscribe_patterns "u")].
Proof.
  apply (issued_token_admitted dumps_demo loads_demo jwt_encode_demo jwt_decode_demo 0 15
           [("sub", JStr "u")] "u" 7 [(0%Z, ping_text)] world0 jwt_demo_roundtrip);
    [reflexivity|discriminate|reflexivity|reflexivity].
Defined.

(** ** Calls: what the limiter and the snapshot commands leave alone *)

Lemma of_sum_fst {W A} (r : exc + A) (w : W) : fst (of_sum r w) = r.
Proof. by destruct r. Qed.

Lemma status_run up actor id W :
  r_up (cw_redis W) = true -> limiter_room (cw_redis W) (rl_key actor "calls:status") 60 = true ->
  fst (get_call_status up actor id W) =
  let from_db :=
    match up id with
    | None => inl (ExHTTP 422 "Invalid call_id")
    | Some cid =>
        match cw_db W !! cid with
        | None => inl (ExHTTP 404 "Call not found")
        | Some c => status_response actor (call_state_of_row cid c)
        end
    end in
  match r_live (cw_redis W) (call_key id) with
  | None => from_db
  | Some (mkEntry (RStr v) _) =>
      if py_truthy v then match v with JObj kv => status_response actor kv | _ => inl server_error end
      else from_db
  | Some (mkEntry (RInt n) _) => if py_truthy (JNum n) then inl server_error else from_db
  | Some _ => inl ExRedis
  end.
Proof.
  intros Hup Hroom.
  destruct (calls_rate_limit_room actor "calls:status" 60 60 (cw_redis W) Hup ltac:(lia) ltac:(lia) Hroom)
    as (R' & Hrl & Hup' & _ & Hkeep).
  unfold get_call_status, bind at 1, c_on_redis at 1. rewrite Hrl. cbv beta iota.
  unfold read_call_state, c_on_redis, rcall, bind. simpl. rewrite Hup'. unfold op_get.
  rewrite (Hkeep _ (call_key_rl_key id actor "calls:status")).
  destruct (r_live (cw_redis W) (call_key id)) as [[[n|v|s] e]|]; simpl; try reflexivity.
  - destruct (Z.eqb n 0); simpl; [|reflexivity].
    destruct (up id) as [cid|]; [|reflexivity]. unfold db_get, gets. simpl.
    destruct (cw_db W !! cid); simpl; [apply of_sum_fst|reflexivity].
  - destruct (py_truthy v); [destruct v; simpl; try apply of_sum_fst; reflexivity|].
    destruct (up id); [|reflexivity]. unfold db_get, gets. simpl.
    destruct (cw_db W !! s); simpl; [apply of_sum_fst|reflexivity].
  - destruct (up id); [|reflexivity]. unfold db_get, gets. simpl.
    destruct (cw_db W !! s); simpl; [apply of_sum_fst|reflexivity].
Qed.

Lemma bind_inr_inv {W A B} (m : M W A) (k : A -> M W B) w b w' :
  bind m k w = (inr b, w') -> exists a w1, m w = (inr a, w1) /\ k a w1 = (inr b, w').
Proof. unfold bind. destruct (m w) as [[e|a] w1]; [discriminate|eauto]. Qed.

Lemma c_on_redis_inr {A} (op : redis -> exc + (A * redis)) w a w1 :
  c_on_redis (rcall op) w = (inr a, w1) ->
  r_up (cw_redis w) = true /\ op (cw_redis w) = inr (a, cw_redis w1) /\ cw_db w1 = cw_db w.
Proof.
  unfold c_on_redis, rcall. destruct (r_up (cw_redis w)); [|discriminate].
  destruct (op (cw_redis w)) as [e|[a' R']]; intros H; simplify_eq/=; auto.
Qed.

(** What a command leaves alone: the clock, the reachability, and every
    other key. *)
Lemma op_sadd_keeps k m R a R' :
  op_sadd k m R = inr (a, R') ->
  r_now R' = r_now R /\ r_up R' = r_up R /\ forall k', k' <> k -> r_live R' k' = r_live R k'.
Proof.
  unfold op_sadd. intros H. repeat (case_match; simplify_eq/=);
    repeat split; intros k' Hk'; apply r_live_with_store_ne; simpl;
    (rewrite lookup_insert_ne; [done|intros Heq; apply Hk'; by rewrite Heq]).
Qed.

Lemma op_expire_keeps k secs R a R' :
  op_expire k secs R = inr (a, R') ->
  r_now R' = r_now R /\ r_up R' = r_up R /\ forall k', k' <> k -> r_live R' k' = r_live R k'.
Proof.
  unfold op_expire. intros H. repeat (case_match; simplify_eq/=);
    repeat split; intros k' Hk'; try done; apply r_live_with_store_ne; simpl;
    [rewrite lookup_delete_ne|rewrite lookup_insert_ne]; (done || (intros Heq; apply Hk'; by rewrite Heq)).
Qed.

Lemma rl_key_status_ne u u' a :
  a = "calls:initiate" \/ a = "calls:answer" \/ a = "calls:end" ->
  rl_key u "calls:status" <> rl_key u' a.
Proof.
  intros Ha H. apply (f_equal (fun s => rev (String.list_ascii_of_string s))) in H.
  unfold rl_key in H. rewrite !list_ascii_of_string_app, !rev_app_distr in H.
  destruct Ha as [ -> | [ -> | -> ] ]; simpl in H; discriminate H.
Qed.

Lemma user_calls_ne_rl x u a : "user:" +:+ x +:+ ":calls" <> rl_key u a.
Proof. unfold rl_key. simpl. intros H. discriminate H. Qed.

Lemma user_calls_ne_call x id : "user:" +:+ x +:+ ":calls" <> call_key id.
Proof. unfold call_key. simpl. intros H. discriminate H. Qed.

(** ** Extra: [get_call_status] without a snapshot answers from the row *)

(** When the snapshot [call:<id>] is missing, expired or falsy, Redis is
    reachable and the viewer's limiter has room, the status comes from the
    database: 422 for an id that is not a UUID, 404 without a row, 403 for
    a viewer who is neither caller nor receiver, and otherwise the row's
    fields. *)
Theorem status_from_db uuid_parse viewer call_id W :
  r_up (cw_redis W) = true ->
  limiter_room (cw_redis W) (rl_key viewer "calls:status") 60 = true ->
  (r_live (cw_redis W) (call_key call_id) = None \/
   exists v e, r_live (cw_redis W) (call_key call_id) = Some (mkEntry (RStr v) e) /\
               py_truthy v = false) ->
  fst (get_call_status uuid_parse viewer call_id W) =
  match uuid_parse call_id with
  | None => inl (ExHTTP 422 "Invalid call_id")
  | Some cid =>
      match cw_db W !! cid with
      | None => inl (ExHTTP 404 "Call not found")
      | Some c =>
          if String.eqb (c_caller c) viewer || String.eqb (c_receiver c) viewer then
            inr (mkStatus (JStr cid) (JStr (c_type c)) (JStr (c_status c)) (opt_num (c_duration c))
                          (JStr (isoformat (c_started c))) (opt_iso (c_answered c))
                          (opt_iso (c_ended c)) (JStr (c_caller c)) (JStr (c_receiver c)))
          else inl (ExHTTP 403 "Not authorized to view this call")
      end
  end.
Proof.
  intros Hup Hroom Hsnap. rewrite (status_run uuid_parse viewer call_id W Hup Hroom). cbv zeta.
  assert (Hdb : forall r, match r_live (cw_redis W) (call_key call_id) with
                  | None => r
                  | Some (mkEntry (RStr v) _) =>
                      if py_truthy v then match v with
                                          | JObj kv => status_response viewer kv
                                          | _ => inl server_error end
                      else r
                  | Some (mkEntry (RInt n) _) => if py_truthy (JNum n) then inl server_error else r
                  | Some _ => inl ExRedis
                  end = r).
  { intros r. destruct Hsnap as [-> | (v & e & -> & Hv)]; [done|]. by rewrite Hv. }
  rewrite Hdb. destruct (uuid_parse call_id) as [cid|]; [|done].
  destruct (cw_db W !! cid) as [c|]; [|done].
  unfold status_response, call_state_of_row. cbn [dget String.eqb Ascii.eqb Bool.eqb andb json_is_str].
  destruct (String.eqb (c_caller c) viewer || String.eqb (c_receiver c) viewer); reflexivity.
Qed.

Lemma status_from_db_witness :
  fst (get_call_status Some "a" "c2" (cworld_at true 0)) =
  inr (mkStatus (JStr "c2") (JStr "voice") (JStr "answered") (JNum 0) (JStr (isoformat 0))
                (JStr (isoformat 1000)) JNull (JStr "a") (JStr "b")).
Proof.
  rewrite (status_from_db Some "a" "c2" (cworld_at true 0)); [reflexivity|reflexivity|reflexivity|].
  left. reflexivity.
Defined.

(** ** Extra: a live snapshot wins over the database *)

(** While the snapshot [call:<id>] holds a non-empty dict [kv], Redis is
    reachable and the viewer's limiter has room, [get_call_status] answers
    from [kv] alone: neither the database nor the validity of the id as a
    UUID plays a part, so a snapshot that disagrees with the row is what
    is served. *)
Theorem status_prefers_snapshot uuid_parse viewer call_id W kv e :
  r_up (cw_redis W) = true ->
  limiter_room (cw_redis W) (rl_key viewer "calls:status") 60 = true ->
  r_live (cw_redis W) (call_key call_id) = Some (mkEntry (RStr (JObj kv)) e) -> kv <> [] ->
  fst (get_call_status uuid_parse viewer call_id W) = status_response viewer kv.
Proof.
  intros Hup Hroom Hsnap Hkv. rewrite (status_run uuid_parse viewer call_id W Hup Hroom), Hsnap.
  simpl. by rewrite bool_decide_eq_false_2.
Qed.

Lemma status_prefers_snapshot_witness :
  let snap := [("call_id", JStr "c2"); ("status", JStr "initiated"); ("caller_id", JStr "a");
               ("receiver_id", JStr "b"); ("started_at", JStr "0")] in
  fst (get_call_status (fun _ => None) "b" "c2"
         (mkCW (mkRedis {[call_key "c2" := mkEntry (RStr (JObj snap)) None]} true 0 []) ∅)) =
  inr (mkStatus (JStr "c2") (JStr "voice") (JStr "initiated") JNull (JStr "0") JNull JNull
                (JStr "a") (JStr "b")).
Proof.
  cbv zeta. eapply eq_trans;
    [eapply status_prefers_snapshot; [reflexivity|reflexivity|reflexivity|discriminate]|reflexivity].
Defined.

(** ** Extra: the status of a call just initiated *)

Lemma c_on_redis_limiter uid act limit w W W1 :
  c_on_redis (calls_rate_limit uid act limit w) W = (inr tt, W1) ->
  r_up (cw_redis W1) = r_up (cw_redis W) /\ r_now (cw_redis W1) = r_now (cw_redis W) /\
  (forall k, k <> rl_key uid act -> r_live (cw_redis W1) k = r_live (cw_redis W) k) /\
  cw_db W1 = cw_db W.
Proof.
  unfold c_on_redis. intros H.
  pose proof (fun k Hk => rate_limit_keeps http_limited is_http uid act limit w (cw_redis W) k Hk) as Hk.
  destruct (calls_rate_limit uid act limit w (cw_redis W)) as [r R1] eqn:E. simplify_eq/=.
  unfold calls_rate_limit in E. rewrite E in Hk. simpl in Hk.
  destruct (decide (uid = uid)) as [_|]; [|done].
  split; [|split; [|split]]; try done.
  - destruct (decide (call_key "" = rl_key uid act)) as [Heq|Hne];
      [by apply call_key_rl_key in Heq|apply (Hk _ Hne)].
  - destruct (decide (call_key "" = rl_key uid act)) as [Heq|Hne];
      [by apply call_key_rl_key in Heq|apply (Hk _ Hne)].
  - intros k Hne. apply (Hk _ Hne).
Qed.

Lemma initiate_effect new_id actor receiver_id call_type W r W' :
  initiate_call new_id actor receiver_id call_type W = (inr r, W') ->
  let now := r_now (cw_redis W) in
  r_up (cw_redis W') = true /\ r_now (cw_redis W') = now /\
  r_live (cw_redis W') (call_key new_id) =
    Some (mkEntry (RStr (JObj [("call_id", JStr new_id); ("status", JStr "initiated");
                               ("caller_id", JStr actor); ("receiver_id", JStr receiver_id);
                               ("call_type", JStr call_type); ("started_at", JStr (isoformat now));
                               ("answered_at", JNull); ("ended_at", JNull);
                               ("duration", JNum 0);
                               ("channel", JStr ("ws:call:" +:+ new_id)); ("meta", JObj [])]))
                  (Some (now + 1000 * 3600)%Z)) /\
  (forall k, k <> rl_key actor "calls:initiate" -> k <> call_key new_id ->
             k <> "user:" +:+ actor +:+ ":calls" -> k <> "user:" +:+ receiver_id +:+ ":calls" ->
             r_live (cw_redis W') k = r_live (cw_redis W) k).
Proof.
  intros H. cbv zeta. unfold initiate_call in H.
  apply bind_inr_inv in H as ([] & W1 & H1 & H).
  apply c_on_redis_limiter in H1 as (Hup1 & Hnow1 & Hk1 & _).
  apply bind_inr_inv in H as (now & W2 & H2 & H). unfold c_now, gets in H2. simplify_eq.
  apply bind_inr_inv in H as ([] & W3 & H3 & H). unfold db_commit, modify in H3. simplify_eq/=.
  apply bind_inr_inv in H as ([] & W4 & H4 & H).
  unfold write_call_state in H4. apply c_on_redis_inr in H4 as (Hup3 & Hop4 & _).
  unfold op_set_ex in Hop4. simpl in Hop4. simplify_eq/=.
  apply bind_inr_inv in H as ([] & W5 & H5 & H).
  apply c_on_redis_inr in H5 as (Hup4 & Hop5 & _). apply op_sadd_keeps in Hop5 as (Hn5 & Hu5 & Hk5).
  apply bind_inr_inv in H as ([] & W6 & H6 & H).
  apply c_on_redis_inr in H6 as (Hup5 & Hop6 & _). apply op_sadd_keeps in Hop6 as (Hn6 & Hu6 & Hk6).
  apply bind_inr_inv in H as (b7 & W7 & H7 & H).
  apply c_on_redis_inr in H7 as (Hup6 & Hop7 & _). apply op_expire_keeps in Hop7 as (Hn7 & Hu7 & Hk7).
  apply bind_inr_inv in H as (b8 & W8 & H8 & H).
  apply c_on_redis_inr in H8 as (Hup7 & Hop8 & _). apply op_expire_keeps in Hop8 as (Hn8 & Hu8 & Hk8).
  unfold ret in H. simplify_eq/=.
  assert (Hne : forall x, call_key new_id <> "user:" +:+ x +:+ ":calls")
    by (intros x Heq; by apply (user_calls_ne_call x new_id)).
  split; [|split; [|split]].
  - rewrite Hu8. exact Hup7.
  - rewrite Hn8, Hn7, Hn6, Hn5, <- Hop4. exact Hnow1.
  - rewrite Hk8, Hk7, Hk6, Hk5 by apply Hne. rewrite <- Hop4.
    unfold r_live, r_with_store. simpl. rewrite lookup_insert_eq. simpl. rewrite Hnow1.
    destruct (Z.ltb_spec (r_now (cw_redis W) + 1000 * 3600) (r_now (cw_redis W))); [lia|done].
  - intros k Hrl Hc Ha Hr. rewrite Hk8, Hk7, Hk6, Hk5 by done. rewrite <- Hop4.
    rewrite r_live_insert_ne by done. by apply Hk1.
Qed.

(** Right after a successful [initiate_call] (same instant), the status
    endpoint serves the snapshot the call just wrote: a participant sees
    the call [initiated] with its type, start time, duration 0 and no
    answer or end time; anyone else gets 403. The viewer's own limiter is
    the only precondition; the database plays no part. *)
Theorem initiate_then_status uuid_parse new_id actor receiver_id call_type viewer W r W' :
  initiate_call new_id actor receiver_id call_type W = (inr r, W') ->
  limiter_room (cw_redis W) (rl_key viewer "calls:status") 60 = true ->
  fst (get_call_status uuid_parse viewer new_id W') =
  if String.eqb actor viewer || String.eqb receiver_id viewer then
    inr (mkStatus (JStr new_id) (JStr call_type) (JStr "initiated") (JNum 0)
                  (JStr (isoformat (r_now (cw_redis W)))) JNull JNull
                  (JStr actor) (JStr receiver_id))
  else inl (ExHTTP 403 "Not authorized to view this call").
Proof.
  intros H Hroom. destruct (initiate_effect _ _ _ _ _ _ _ H) as (Hup & _ & Hsnap & Hkeep).
  assert (Hroom' : limiter_room (cw_redis W') (rl_key viewer "calls:status") 60 = true).
  { unfold limiter_room. rewrite Hkeep; [exact Hroom| | | |].
    - apply rl_key_status_ne. by left.
    - intros Heq. symmetry in Heq. by apply call_key_rl_key in Heq.
    - intros Heq. symmetry in Heq. by apply user_calls_ne_rl in Heq.
    - intros Heq. symmetry in Heq. by apply user_calls_ne_rl in Heq. }
  rewrite (status_run uuid_parse viewer new_id W' Hup Hroom'), Hsnap.
  simpl.
  unfold status_response. cbn [dget String.eqb Ascii.eqb Bool.eqb andb json_is_str].
  destruct (String.eqb actor viewer || String.eqb receiver_id viewer); reflexivity.
Qed.

Lemma initiate_then_status_witness :
  let W' := snd (initiate_call "n1" "a" "b" "video" (cworld_at true 0)) in
  fst (get_call_status (fun _ => None) "b" "n1" W') =
  inr (mkStatus (JStr "n1") (JStr "video") (JStr "initiated") (JNum 0) (JStr (isoformat 0))
                JNull JNull (JStr "a") (JStr "b")).
Proof.
  cbv zeta.
  rewrite (initiate_then_status (fun _ => None) "n1" "a" "b" "video" "b" (cworld_at true 0)
             ("n1", "initiated", isoformat 0)); reflexivity.
Defined.

(** ** Extra: a snapshot rebuilt after expiry breaks the status endpoint *)

Lemma refresh_after_expiry call_id upd ttl W W' :
  refresh_call_state call_id upd ttl W = (inr tt, W') ->
  r_live (cw_redis W) (call_key call_id) = None ->
  r_up (cw_redis W') = true /\
  (exists e, r_live (cw_redis W') (call_key call_id) = Some (mkEntry (RStr (JObj (dupdate [] upd))) e)) /\
  (forall k, k <> call_key call_id -> r_live (cw_redis W') k = r_live (cw_redis W) k).
Proof.
  intros H Hnone. unfold refresh_call_state in H.
  apply bind_inr_inv in H as (raw & W1 & H1 & H).
  unfold read_call_state in H1. apply c_on_redis_inr in H1 as (Hup & Hop1 & _).
  unfold op_get in Hop1. rewrite Hnone in Hop1. simplify_eq/=.
  apply bind_inr_inv in H as (st & W2 & H2 & H). unfold state_or_empty, ret in H2. simplify_eq/=.
  unfold write_call_state in H. apply c_on_redis_inr in H as (_ & Hop & _).
  unfold op_set_ex in Hop. destruct (Z.leb_spec ttl 0); [discriminate|]. simplify_eq/=.
  rewrite <- Hop. split; [|split].
  - simpl. congruence.
  - eexists. unfold r_live, r_with_store. simpl. rewrite lookup_insert_eq. simpl.
    rewrite (proj2 (Z.ltb_ge _ _)) by lia. reflexivity.
  - intros k Hk. rewrite r_live_insert_ne by done. congruence.
Qed.

(** [answer_call] never succeeds: every path past the lookups ends in a
    refusal or in the failed commit of the aware [answered_at]. *)
Lemma answer_call_fails uuid_parse actor call_id W :
  exists e, fst (answer_call uuid_parse actor call_id W) = inl e.
Proof.
  destruct (uuid_parse call_id) as [cid|] eqn:Hu.
  - destruct (cw_db W !! cid) as [c|] eqn:Hc.
    + rewrite (answer_call_result uuid_parse actor call_id cid c W Hu Hc). simpl.
      destruct (fst _); eauto.
    + destruct W as [R db]. simpl in Hc.
      unfold answer_call, bind at 1, c_on_redis at 1. cbn [cw_redis cw_db].
      destruct (calls_rate_limit actor "calls:answer" 30 60 R) as [[e|[]] R1]; simpl; [eauto|].
      rewrite Hu. unfold db_get, gets, bind. simpl. rewrite Hc. simpl. eauto.
  - destruct W as [R db].
    unfold answer_call, bind at 1, c_on_redis at 1. cbn [cw_redis cw_db].
    destruct (calls_rate_limit actor "calls:answer" 30 60 R) as [[e|[]] R1]; simpl; [eauto|].
    rewrite Hu. simpl. eauto.
Qed.

Lemma answer_end_after_expiry uuid_parse actor call_id W r W' :
  (answer_call uuid_parse actor call_id W = (inr r, W') \/
   end_call uuid_parse actor call_id W = (inr r, W')) ->
  r_live (cw_redis W) (call_key call_id) = None ->
  r_up (cw_redis W') = true /\
  (exists kv e, r_live (cw_redis W') (call_key call_id) = Some (mkEntry (RStr (JObj kv)) e) /\
                dget kv "caller_id" = None /\ kv <> []) /\
  (forall k, k <> rl_key actor "calls:answer" -> k <> rl_key actor "calls:end" ->
             k <> call_key call_id -> r_live (cw_redis W') k = r_live (cw_redis W) k).
Proof.
  intros [H|H] Hnone.
  - exfalso. destruct (answer_call_fails uuid_parse actor call_id W) as [e He].
    rewrite H in He. discriminate He.
  - unfold end_call in H.
    apply bind_inr_inv in H as ([] & W1 & H1 & H).
    apply c_on_redis_limiter in H1 as (_ & _ & Hk1 & _).
    destruct (uuid_parse call_id) as [cid|]; [|discriminate H].
    apply bind_inr_inv in H as (oc & W2 & H2 & H). unfold db_get, gets in H2. injection H2 as Hoc <-.
    destruct oc as [c|]; [|discriminate H].
    destruct (negb (String.eqb actor (c_caller c) || String.eqb actor (c_receiver c)));
      [discriminate H|].
    apply bind_inr_inv in H as ([ea du] & W4 & H4 & H).
    assert (Hr4 : cw_redis W4 = cw_redis W1).
    { destruct (negb (String.eqb (c_status c) "ended")).
      - exfalso. cbv [c_now_utc gets bind of_sum raise ret dt_sub bind_timestamp] in H4.
        destruct (c_answered c); discriminate H4.
      - unfold ret in H4. simplify_eq. reflexivity. }
    apply bind_inr_inv in H as ([] & W5 & H5 & H). unfold ret in H. simplify_eq.
    apply refresh_after_expiry in H5 as (Hup & [e He] & Hk5);
      [|rewrite Hr4, Hk1; [exact Hnone|apply call_key_rl_key]].
    split; [exact Hup|split].
    + do 2 eexists. split; [exact He|]. split; [reflexivity|discriminate].
    + intros k _ He' Hc. rewrite Hk5, Hr4 by done. by apply Hk1.
Qed.

(** When the snapshot of a call has expired (or was never written), a
    successful [answer_call] or [end_call] writes a new snapshot holding
    only the keys it updates ([{} .update(...)]); as [answer_call] never
    succeeds under the driver, this is [end_call] on an ended call. From then on, while that
    snapshot lives, [get_call_status] fails with a 500 ([state["caller_id"]]
    raises [KeyError]) for every viewer, participants included, although
    the row is in the database. *)
Theorem status_fails_after_expired_refresh uuid_parse actor viewer call_id W r W' :
  (answer_call uuid_parse actor call_id W = (inr r, W') \/
   end_call uuid_parse actor call_id W = (inr r, W')) ->
  r_live (cw_redis W) (call_key call_id) = None ->
  limiter_room (cw_redis W) (rl_key viewer "calls:status") 60 = true ->
  fst (get_call_status uuid_parse viewer call_id W') = inl server_error.
Proof.
  intros H Hnone Hroom.
  destruct (answer_end_after_expiry _ _ _ _ _ _ H Hnone)
    as (Hup & (kv & e & Hsnap & Hcaller & Hkv) & Hkeep).
  assert (Hroom' : limiter_room (cw_redis W') (rl_key viewer "calls:status") 60 = true).
  { unfold limiter_room. rewrite Hkeep; [exact Hroom| | |].
    - apply rl_key_status_ne. by right; left.
    - apply rl_key_status_ne. by right; right.
    - intros Heq. symmetry in Heq. by apply call_key_rl_key in Heq. }
  rewrite (status_run uuid_parse viewer call_id W' Hup Hroom'), Hsnap. simpl.
  rewrite bool_decide_eq_false_2 by exact Hkv. simpl.
  unfold status_response. by rewrite Hcaller.
Qed.

Lemma status_fails_after_expired_refresh_witness :
  let W' := snd (end_call Some "a" "c1" (cworld_at true 5000)) in
  fst (get_call_status Some "b" "c1" W') = inl server_error.
Proof.
  cbv zeta.
  apply (status_fails_after_expired_refresh Some "a" "b" "c1" (cworld_at true 5000)
           ("Call ended", c_duration call_c1));
    [right; vm_compute; reflexivity|reflexivity|reflexivity].
Defined.

(** ** Extra: ending someone else's call *)

(** [end_call] by a user who is neither the caller nor the receiver of an
    existing call is refused (403, or 429 from the limiter first): the row
    and the snapshot are untouched, and only the actor's own limiter
    counter may have moved. *)
Theorem end_call_forbidden uuid_parse actor call_id cid c W :
  uuid_parse call_id = Some cid -> cw_db W !! cid = Some c ->
  actor <> c_caller c -> actor <> c_receiver c ->
  let '(r, W') := end_call uuid_parse actor call_id W in
  (r = inl (ExHTTP 403 "Not authorized to end this call") \/ exists d, r = inl (ExHTTP 429 d)) /\
  cw_db W' = cw_db W /\
  forall k, k <> rl_key actor "calls:end" -> r_live (cw_redis W') k = r_live (cw_redis W) k.
Proof.
  intros Hu Hc Hne1 Hne2. destruct W as [R db]. simpl in Hc |- *.
  pose proof (calls_rate_limit_result actor "calls:end" 30 60 R) as [Hres _].
  pose proof (fun k Hk => rate_limit_keeps http_limited is_http actor "calls:end" 30 60 R k Hk) as Hk.
  unfold end_call, bind at 1, c_on_redis at 1. cbn [cw_redis cw_db].
  unfold calls_rate_limit in Hres |- *.
  destruct (rate_limit_gen http_limited is_http actor "calls:end" 30 60 R) as [[e|[]] R1] eqn:E;
    simpl in Hres, Hk; cbv beta iota zeta.
  - destruct Hres as [Hres|[d Hd]]; [discriminate|]. injection Hd as ->.
    split; [right; eauto|split; [done|]]. intros k Hk'. by apply Hk.
  - rewrite Hu. unfold db_get, gets, bind at 1. cbn [cw_db]. rewrite Hc. cbv beta iota zeta.
    rewrite (proj2 (String.eqb_neq actor (c_caller c)) Hne1),
            (proj2 (String.eqb_neq actor (c_receiver c)) Hne2). simpl.
    split; [by left|split; [done|]]. intros k Hk'. by apply Hk.
Qed.

Lemma end_call_forbidden_witness :
  let '(r, W') := end_call Some "z" "c2" (cworld_at true 0) in
  (r = inl (ExHTTP 403 "Not authorized to end this call") \/ exists d, r = inl (ExHTTP 429 d)) /\
  cw_db W' = cw_db (cworld_at true 0) /\
  forall k, k <> rl_key "z" "calls:end" -> r_live (cw_redis W') k = r_live (cw_redis (cworld_at true 0)) k.
Proof.
  apply (end_call_forbidden Some "z" "c2" "c2" call_c2); [reflexivity|reflexivity|discriminate|discriminate].
Defined.

(** ** Extra: no database fallback when Redis is down *)

(** With Redis unreachable the limiter lets the request through, but the
    snapshot read raises: [get_call_status] fails with the Redis error
    whatever the database holds, instead of falling back to the row. *)
Theorem status_redis_down uuid_parse viewer call_id W :
  r_up (cw_redis W) = false ->
  get_call_status uuid_parse viewer call_id W = (inl ExRedis, W).
Proof.
  intros Hd. destruct W as [[st up now pub] db]. simpl in Hd. subst up.
  unfold get_call_status, bind at 1, c_on_redis at 1. cbn [cw_redis cw_db].
  unfold calls_rate_limit. rewrite rate_limit_down by reflexivity. reflexivity.
Qed.

Lemma status_redis_down_witness :
  get_call_status Some "a" "c2" (cworld_at false 0) = (inl ExRedis, cworld_at false 0).
Proof. apply status_redis_down. reflexivity. Defined.

(** ** Extra: a chat message reaches the receiver three times *)

Lemma send_to_user_alive dumps dead uid msg (reg : gmap string (gset nat)) S :
  reg !! uid = Some S -> S ≠ ∅ -> S ## dead ->
  send_to_user dumps dead uid msg reg = (reg, map (fun ws => SendOk ws (dumps msg)) (elements S)).
Proof.
  intros HS Hne Hd. rewrite (send_to_user_shape dumps dead uid msg reg S HS Hne).
  f_equal.
  - replace (S ∖ dead) with S by set_solver. by apply set_entry_id.
  - apply map_ext_in. intros ws Hws. apply list_elem_of_In, elem_of_elements in Hws.
    rewrite bool_decide_eq_false_2 by set_solver. done.
Qed.

Lemma mgr_send_alive dumps uid msg W S :
  ws_reg W !! uid = Some S -> S ≠ ∅ -> S ## ws_dead W ->
  mgr_send_to_user dumps uid msg W =
  (inr tt, mkWs (ws_redis W) (ws_reg W) (ws_dead W)
                (ws_sent W ++ map (fun ws => SendOk ws (dumps msg)) (elements S))
                (ws_accepted W) (ws_closed W) (ws_subs W) (ws_client W)).
Proof.
  intros HS Hne Hd. unfold mgr_send_to_user. by rewrite (send_to_user_alive _ _ _ _ _ S HS Hne Hd).
Qed.

(** A pattern without [*] or [?] matches only itself. *)
Lemma glob_literal p s :
  forallb (fun c => negb (Ascii.eqb c (Ascii.ascii_of_nat 42) || Ascii.eqb c (Ascii.ascii_of_nat 63))) p = true ->
  glob p s = true -> p = s.
Proof.
  revert s. induction p as [|c p IH]; intros s Hp Hg; destruct s as [|d s]; try done.
  - simpl in Hp. apply andb_true_iff in Hp as [Hc Hp].
    apply negb_true_iff, orb_false_iff in Hc as [Hc _]. simpl in Hg. by rewrite Hc in Hg.
  - simpl in Hp. apply andb_true_iff in Hp as [Hc Hp].
    apply negb_true_iff, orb_false_iff in Hc as [H1 H2]. simpl in Hg. rewrite H1, H2 in Hg.
    simpl in Hg. apply andb_true_iff in Hg as [Hcd Hg]. apply Ascii.eqb_eq in Hcd. subst d.
    f_equal. by apply IH.
Qed.

Lemma no_glob_meta_literal T :
  no_glob_meta T = true ->
  forallb (fun c => negb (Ascii.eqb c (Ascii.ascii_of_nat 42) || Ascii.eqb c (Ascii.ascii_of_nat 63)))
          (String.list_ascii_of_string T) = true.
Proof.
  unfold no_glob_meta. intros H. apply forallb_forall. intros c Hc.
  eapply forallb_forall in H; [|exact Hc]. simpl in H.
  destruct (Ascii.eqb c (Ascii.ascii_of_nat 42)), (Ascii.eqb c (Ascii.ascii_of_nat 63)); done.
Qed.

Lemma literal_prefix_no_match (a b T : string) :
  no_glob_meta T = true -> no_glob_meta a = true ->
  length (String.list_ascii_of_string a) <> length (String.list_ascii_of_string b) ->
  pattern_matches (a +:+ T) (b +:+ T) = false.
Proof.
  intros HT Ha Hlen. destruct (pattern_matches (a +:+ T) (b +:+ T)) eqn:E; [|done]. exfalso.
  unfold pattern_matches in E. apply glob_literal in E.
  - apply (f_equal (@length _)) in E. rewrite !list_ascii_of_string_app, !length_app in E.
    lia.
  - rewrite list_ascii_of_string_app, forallb_app, !no_glob_meta_literal; done.
Qed.

Lemma messages_channel_patterns T :
  no_glob_meta T = true ->
  List.filter (fun p => pattern_matches p ("ws:messages:" +:+ T)) (subscribe_patterns T) =
  ["ws:messages:" +:+ T; "ws:*:" +:+ T].
Proof.
  intros HT. unfold subscribe_patterns. cbn [List.filter].
  rewrite pattern_matches_refl.
  rewrite (literal_prefix_no_match "ws:messages:react:" "ws:messages:" T HT eq_refl ltac:(simpl; lia)).
  rewrite (literal_prefix_no_match "ws:messages:read:" "ws:messages:" T HT eq_refl ltac:(simpl; lia)).
  rewrite (literal_prefix_no_match "ws:notify:" "ws:messages:" T HT eq_refl ltac:(simpl; lia)).
  replace (pattern_matches ("ws:*:" +:+ T) ("ws:messages:" +:+ T)) with true; [reflexivity|].
  symmetry. unfold pattern_matches. rewrite !list_ascii_of_string_app.
  cbn [String.list_ascii_of_string app].
  rewrite !glob_lit_cons by (vm_compute; discriminate).
  apply (glob_star_app _ (String.list_ascii_of_string "messages")).
  cbn [String.list_ascii_of_string app].
  rewrite glob_lit_cons by (vm_compute; discriminate). apply glob_refl.
Qed.

Lemma handle_message_effect dumps sender kv W S :
  kind_is kv "message" = true -> r_up (ws_redis W) = true ->
  limiter_room (ws_redis W) (rl_key sender "ws:message_meta") 240 = true ->
  ws_reg W !! get_str_or_empty kv "receiver_id" = Some S -> S ≠ ∅ -> S ## ws_dead W ->
  let T := get_str_or_empty kv "receiver_id" in
  let notify := JObj [("type", JStr "new_message"); ("from", JStr sender);
                      ("message_id", get_or_null kv "message_id");
                      ("client_id", get_or_null kv "client_id");
                      ("delivered_at", get_or_null kv "delivered_at")] in
  exists R1, handle_client_event dumps sender (JObj kv) W =
    (inr tt, mkWs R1 (ws_reg W) (ws_dead W)
                  (ws_sent W ++ map (fun ws => SendOk ws (dumps notify)) (elements S))
                  (ws_accepted W) (ws_closed W) (ws_subs W) (ws_client W)) /\
    r_pub R1 = r_pub (ws_redis W) ++ [("ws:messages:" +:+ T, dumps notify)].
Proof.
  intros Hk Hup Hroom HS Hne Hd. cbv zeta.
  destruct (ws_rate_limit_room sender "ws:message_meta" 240 60 (ws_redis W) Hup
              ltac:(lia) ltac:(lia) Hroom) as (R' & E & Hup' & Hpub').
  unfold handle_client_event. rewrite !(kind_is_det kv "message" _ Hk).
  change (String.eqb "message" "ping") with false. change (String.eqb "message" "typing") with false.
  change (String.eqb "message" "read_receipt") with false.
  change (String.eqb "message" "signal") with false. change (String.eqb "message" "party") with false.
  rewrite String.eqb_refl. cbv iota.
  unfold bind at 1, on_redis at 1. rewrite E. cbv beta iota.
  unfold bind. rewrite (mgr_send_alive _ _ _ (set_ws_redis R' W) S HS Hne Hd). cbv beta iota.
  unfold publish_best_effort, catch, on_redis, rcall. simpl. rewrite Hup'. simpl.
  eexists. split; [reflexivity|]. simpl. by rewrite Hpub'.
Qed.

Lemma forwarder_messages_channel dumps loads T d j W S :
  no_glob_meta T = true -> loads d = Some j ->
  ws_reg W !! T = Some S -> S ≠ ∅ -> S ## ws_dead W ->
  pubsub_forwarder dumps loads T (pubsub_deliveries (subscribe_patterns T) [("ws:messages:" +:+ T, d)]) W =
  (inr tt, mkWs (ws_redis W) (ws_reg W) (ws_dead W)
                (ws_sent W ++ map (fun ws => SendOk ws (dumps j)) (elements S)
                           ++ map (fun ws => SendOk ws (dumps j)) (elements S))
                (ws_accepted W) (ws_closed W) (ws_subs W) (ws_client W)).
Proof.
  intros HT Hd HS Hne Hdead. unfold pubsub_deliveries. cbn [flat_map]. rewrite app_nil_r.
  rewrite (messages_channel_patterns T HT). cbn [map pubsub_forwarder].
  change (is_message_type _) with true. cbv iota.
  unfold get_or_null. cbn [dget String.eqb Ascii.eqb Bool.eqb andb]. unfold forward_payload.
  rewrite Hd. rewrite (bind_inr _ _ W _ _ (mgr_send_alive dumps T j W S HS Hne Hdead)).
  erewrite bind_inr; [|apply (mgr_send_alive _ _ _ _ S); simpl; assumption].
  unfold ret. simpl. by rewrite app_assoc.
Qed.

Lemma run_forwarders_messages dumps loads T d j W S n :
  no_glob_meta T = true -> loads d = Some j ->
  ws_reg W !! T = Some S -> S ≠ ∅ -> S ## ws_dead W ->
  run_forwarders dumps loads T n (pubsub_deliveries (subscribe_patterns T) [("ws:messages:" +:+ T, d)]) W =
  (inr tt, mkWs (ws_redis W) (ws_reg W) (ws_dead W)
                (ws_sent W ++ concat (repeat (map (fun ws => SendOk ws (dumps j)) (elements S)
                                              ++ map (fun ws => SendOk ws (dumps j)) (elements S)) n))
                (ws_accepted W) (ws_closed W) (ws_subs W) (ws_client W)).
Proof.
  intros HT Hd HS Hne Hdead. revert W HS Hdead.
  induction n as [|n IH]; intros W HS Hdead; cbn [run_forwarders].
  - unfold ret. rewrite app_nil_r. by destruct W.
  - rewrite (bind_inr _ _ W _ _ (forwarder_messages_channel dumps loads T d j W S HT Hd HS Hne Hdead)).
    rewrite IH by assumption. cbn [ws_redis ws_reg ws_dead ws_sent ws_accepted ws_closed ws_subs ws_client].
    cbn [repeat concat]. by rewrite <- !app_assoc.
Qed.

Lemma sent_to_absent ws m (l : list nat) :
  ws ∉ l -> length (List.filter (sent_to ws) (map (fun w => SendOk w m) l)) = 0%nat.
Proof.
  induction l as [|y l IH]; intros Hn; [done|].
  apply not_elem_of_cons in Hn as [Hy Hn]. cbn [map List.filter sent_to].
  destruct (Nat.eqb_spec y ws); [congruence|]. by apply IH.
Qed.

Lemma sent_to_once ws m (S : gset nat) :
  ws ∈ S -> length (List.filter (sent_to ws) (map (fun w => SendOk w m) (elements S))) = 1%nat.
Proof.
  intros Hin. apply elem_of_elements in Hin. pose proof (NoDup_elements S) as Hnd.
  induction (elements S) as [|x l IH]; [by apply elem_of_nil in Hin|].
  apply NoDup_cons in Hnd as [Hx Hnd]. cbn [map List.filter sent_to].
  destruct (Nat.eqb_spec x ws) as [<-|Hne].
  - cbn [length]. f_equal. by apply sent_to_absent.
  - apply IH; [|exact Hnd]. apply elem_of_cons in Hin as [->|Hin]; [done|exact Hin].
Qed.

Lemma filter_concat_repeat {A} (f : A -> bool) (l : list A) n :
  length (List.filter f (concat (repeat l n))) = (n * length (List.filter f l))%nat.
Proof.
  induction n as [|n IH]; [done|]. cbn [repeat concat].
  rewrite List.filter_app, length_app, IH. lia.
Qed.

(** A [message] event from [sender] to a user [T] whose sockets [S] all
    accept frames, with Redis reachable and the sender's limiter open:
    the handler sends the [new_message] notification to [T]'s sockets and
    publishes it on [ws:messages:T]. Each of [T]'s [size S] connections
    runs a forwarder subscribed with the five patterns of [T], which
    receives that frame twice ([ws:messages:T] and [ws:*:T] both match)
    and forwards it each time to every socket of [T]. Every socket of [T]
    thus receives the notification [1 + 2 * size S] times: three times
    when [T] has a single socket. *)
Theorem message_delivered_three_times (dumps : json -> string) (loads : string -> option json)
    (sender : string) (kv : list (string * json)) (W : wsworld) (S : gset nat) :
  (forall j, loads (dumps j) = Some j) ->
  kind_is kv "message" = true -> no_glob_meta (get_str_or_empty kv "receiver_id") = true ->
  r_up (ws_redis W) = true ->
  limiter_room (ws_redis W) (rl_key sender "ws:message_meta") 240 = true ->
  ws_reg W !! get_str_or_empty kv "receiver_id" = Some S -> S ≠ ∅ -> S ## ws_dead W ->
  let T := get_str_or_empty kv "receiver_id" in
  let notify := JObj [("type", JStr "new_message"); ("from", JStr sender);
                      ("message_id", get_or_null kv "message_id");
                      ("client_id", get_or_null kv "client_id");
                      ("delivered_at", get_or_null kv "delivered_at")] in
  let L := map (fun ws => SendOk ws (dumps notify)) (elements S) in
  let W1 := snd (handle_client_event dumps sender (JObj kv) W) in
  let published := [("ws:messages:" +:+ T, dumps notify)] in
  let W2 := snd (run_forwarders dumps loads T (size S)
                   (pubsub_deliveries (subscribe_patterns T) published) W1) in
  r_pub (ws_redis W1) = r_pub (ws_redis W) ++ published /\
  ws_sent W2 = ws_sent W ++ L ++ concat (repeat (L ++ L) (size S)) /\
  forall ws, ws ∈ S ->
    length (List.filter (sent_to ws) (drop (length (ws_sent W)) (ws_sent W2))) = (1 + 2 * size S)%nat.
Proof.
  intros Hrt Hk HT Hup Hroom HS Hne Hd. cbv zeta.
  destruct (handle_message_effect dumps sender kv W S Hk Hup Hroom HS Hne Hd) as (R1 & E & Hpub).
  rewrite E. cbn [snd ws_redis]. split; [exact Hpub|].
  rewrite (run_forwarders_messages _ _ _ _ _ _ S _ HT (Hrt _)); [|exact HS|exact Hne|exact Hd].
  cbn [snd ws_sent]. rewrite <- app_assoc. split; [reflexivity|].
  intros ws Hws. rewrite drop_app_length.
  rewrite List.filter_app, length_app, filter_concat_repeat, List.filter_app, length_app,
    !sent_to_once by exact Hws.
  lia.
Qed.

Lemma codec_roundtrip j : loads_codec (dumps_codec j) = Some j.
Proof.
  unfold loads_codec, dumps_codec. rewrite text_pos_text, decode_encode. by rewrite json_of_to_tree.
Qed.

Lemma message_delivered_three_times_witness :
  let W := mkWs (mkRedis ∅ true 0 []) {["b" := {[1%nat; 2%nat]}]} ∅ [] [] [] [] false in
  let kv := [("type", JStr "message"); ("receiver_id", JStr "b"); ("message_id", JStr "m1")] in
  let W1 := snd (handle_client_event dumps_codec "a" (JObj kv) W) in
  let T := get_str_or_empty kv "receiver_id" in
  let W2 := snd (run_forwarders dumps_codec loads_codec T 2
                   (pubsub_deliveries (subscribe_patterns T) (r_pub (ws_redis W1))) W1) in
  length (List.filter (sent_to 1) (ws_sent W2)) = 5%nat /\
  length (List.filter (sent_to 2) (ws_sent W2)) = 5%nat.
Proof.
  cbv zeta.
  destruct (message_delivered_three_times dumps_codec loads_codec "a"
              [("type", JStr "message"); ("receiver_id", JStr "b"); ("message_id", JStr "m1")]
              (mkWs (mkRedis ∅ true 0 []) {["b" := {[1%nat; 2%nat]}]} ∅ [] [] [] [] false)
              {[1%nat; 2%nat]}
              codec_roundtrip ltac:(reflexivity) ltac:(reflexivity) ltac:(reflexivity)
              ltac:(reflexivity) ltac:(reflexivity) ltac:(set_solver) ltac:(set_solver))
    as (Hp & _ & Hc).
  cbv zeta in Hp, Hc. rewrite Hp, app_nil_l.
  assert (Hsz : size ({[1%nat; 2%nat]} : gset nat) = 2%nat) by reflexivity.
  rewrite Hsz in Hc.
  split; [apply (Hc 1%nat)|apply (Hc 2%nat)]; set_solver.
Defined.
